(** * A shallow embedding of the backup service of sanity-backups-ambr

    The Express server (src/unnamed/part_000) keeps an in-memory map
    [backupStatus] from backup ids to status records, runs each backup as a
    detached asynchronous task ([performBackup]) and serves listing and
    download routes over an S3 bucket.  This file embeds:
    - the JavaScript string operations the routes use ([split], [endsWith],
      [replace], [join], template strings over [Date.now()]);
    - the [GET /api/backups/list] handler (filter, parse, sort);
    - the [GET /api/backups/download/:key] handler;
    - the [GET /api/backup/...] handler together with [performBackup], as a
      state-and-error monad over a world holding the status map, the local
      archive file, the clock and an event log.  Awaits are logged, so the
      run-to-completion segments of the JavaScript event loop can be read
      off the log. *)

From Stdlib Require Import String Ascii NArith DecimalString DecimalN.
From Stdlib Require Import Sorted.
From Stdlib Require SpecFloat.
From stdpp Require Import base gmap strings list.

Local Open Scope string_scope.

(* ------------------------------------------------------------------ *)
(** ** JavaScript values and string operations *)

(** A thrown value: an [Error] object with its message, or anything else
    (the code tests [error instanceof Error]). *)
Inductive jerr :=
| JsError (msg : string)
| NonError.

(** [error instanceof Error ? error.message : dflt] *)
Definition err_message (dflt : string) (e : jerr) : string :=
  match e with JsError m => m | NonError => dflt end.

(** Truthiness of an optional string ([process.env.X], [obj.Key]):
    [undefined] and [""] are falsy. *)
Definition truthy (o : option string) : bool :=
  match o with Some s => negb (String.eqb s "") | None => false end.

(** [s || dflt] on an optional string. *)
Definition or_default (o : option string) (dflt : string) : string :=
  match o with Some s => if String.eqb s "" then dflt else s | None => dflt end.

(** [s.split(c)] for a one-character separator. *)
Fixpoint split (c : ascii) (s : string) : list string :=
  match s with
  | EmptyString => [""]
  | String a s' =>
      let r := split c s' in
      if Ascii.eqb a c then "" :: r
      else match r with
           | h :: t => String a h :: t
           | [] => [String a ""]
           end
  end.

(** [s.endsWith(suf)] *)
Definition endsWith (s suf : string) : bool :=
  let n := String.length s in
  let m := String.length suf in
  (m <=? n)%nat && String.eqb (String.substring (n - m) m s) suf.

(** [s.replace(pat, rep)] with a string pattern: only the first occurrence
    is replaced. *)
Fixpoint replace (pat rep s : string) : string :=
  if String.prefix pat s
  then rep +:+ String.substring (String.length pat)
                 (String.length s - String.length pat) s
  else match s with
       | EmptyString => EmptyString
       | String a s' => String a (replace pat rep s')
       end.

(** [parts.join(sep)] *)
Definition join (sep : string) (l : list string) : string := String.concat sep l.

(** A JavaScript integer number printed in a template string
    ([`${Date.now()}`]): decimal digits, no leading zero. *)
Definition num_to_string (n : N) : string :=
  NilEmpty.string_of_uint (N.to_uint n).

(** [a.localeCompare(b)], as a [comparison]; modelled as code-point
    order.  The runtime compares with its default collation, which agrees
    with code-point order on strings of ASCII digits ([ascii_digits]
    below) and differs elsewhere: on letters the collation compares
    without case first and puts 'feb' before 'Jan', where code-point order
    puts 'Jan' first ('J' < 'f').  Statements that depend on the order of
    two dates assume both are digit strings. *)
Definition localeCompare (a b : string) : comparison := String.compare a b.

(** A non-empty string of the ASCII digits 0-9. *)
Definition ascii_digits (s : string) : bool :=
  negb (String.eqb s "") &&
  forallb (fun a => (48 <=? nat_of_ascii a)%nat && (nat_of_ascii a <=? 57)%nat)
    (list_ascii_of_string s).

(** [Array.prototype.sort] with a comparator: a stable insertion sort
    that keeps an element before a later one unless the comparator puts
    the later one strictly first.  For a consistent comparator (a total
    preorder) every stable sort returns this list, the engine's included.
    For an inconsistent one, such as [by_date_desc] on a list mixing
    empty and non-empty dates, the engine's order is
    implementation-defined and may differ from this one; statements about
    such inputs use only that the result is a permutation of the input,
    which holds for every sort. *)
Fixpoint insert_by {A} (cmp : A -> A -> comparison) (x : A) (l : list A) : list A :=
  match l with
  | [] => [x]
  | y :: l' =>
      match cmp y x with
      | Lt => y :: insert_by cmp x l'
      | _ => x :: y :: l'
      end
  end.

Fixpoint sort_by {A} (cmp : A -> A -> comparison) (l : list A) : list A :=
  match l with
  | [] => []
  | x :: l' => insert_by cmp x (sort_by cmp l')
  end.

(* ------------------------------------------------------------------ *)
(** ** Environment *)

Record Env := {
  AWS_REGION : option string;
  S3_BUCKET_NAME : option string;
  AWS_ACCESS_KEY_ID : option string;
  AWS_SECRET_ACCESS_KEY : option string
}.

(* ------------------------------------------------------------------ *)
(** ** [GET /api/backups/list] *)

(** An element of [ListObjectsV2]'s [Contents]. *)
Record S3Object := {
  Key : option string;
  Size : option N;
  LastModified : option N
}.

(** One entry of the [backups] array ([sizeMB], a [toFixed(2)] rendering
    of a floating-point division, is not modelled). *)
Record BackupFile := {
  bf_key : string;
  bf_projectName : string;
  bf_date : string;
  bf_dataset : string;
  bf_projectId : string;
  bf_size : N;
  bf_lastModified : option N
}.

(** [.filter(obj => obj.Key && obj.Key.endsWith('.tar.gz'))] *)
Definition is_backup_object (obj : S3Object) : bool :=
  match Key obj with
  | Some k => truthy (Some k) && endsWith k ".tar.gz"
  | None => false
  end.

(** The [.map(obj => ...)] callback. *)
Definition parse_object (obj : S3Object) : BackupFile :=
  let key := match Key obj with Some k => k | None => "" end in
  let parts := split "-" key in
  let n := length parts in
  let '(projectName, date, dataset, projectId) :=
    if (4 <=? n)%nat then
      let lastThreeParts := skipn (n - 3) parts in
      (join "-" (firstn (n - 3) parts),
       nth 0 lastThreeParts "",
       nth 1 lastThreeParts "",
       replace ".tar.gz" "" (nth 2 lastThreeParts ""))
    else ("", "", "", "") in
  {| bf_key := key;
     bf_projectName := projectName;
     bf_date := date;
     bf_dataset := dataset;
     bf_projectId := projectId;
     bf_size := match Size obj with Some s => s | None => 0%N end;
     bf_lastModified := LastModified obj |}.

(** The [.sort((a, b) => ...)] comparator: newest date first when both
    dates are non-empty, otherwise "equal". *)
Definition by_date_desc (a b : BackupFile) : comparison :=
  if truthy (Some (bf_date a)) && truthy (Some (bf_date b))
  then localeCompare (bf_date b) (bf_date a)
  else Eq.

Definition backup_files (contents : list S3Object) : list BackupFile :=
  sort_by by_date_desc (List.map parse_object (List.filter is_backup_object contents)).

(** The outcome of [s3Client.send(new ListObjectsV2Command(...))]: a
    thrown error, or a response whose [Contents] may be absent. *)
Inductive ListOutcome :=
| ListThrows (e : jerr)
| ListReturns (contents : option (list S3Object)).

Inductive ListResponse :=
| ListError (code : N) (error : string)
| ListNone (backups : list BackupFile) (totalCount : nat) (message : string)
| ListOk (backups : list BackupFile) (totalCount : nat) (bucket : string)
         (region : string).

Definition list_handler (env : Env) (out : ListOutcome) : ListResponse :=
  if negb (truthy (S3_BUCKET_NAME env))
  then ListError 500 "S3_BUCKET_NAME environment variable is not set"
  else match out with
       | ListThrows e => ListError 500 (err_message "Unknown error occurred" e)
       | ListReturns None => ListNone [] 0 "No backup files found in bucket"
       | ListReturns (Some contents) =>
           let files := backup_files contents in
           ListOk files (length files) (or_default (S3_BUCKET_NAME env) "")
                  (or_default (AWS_REGION env) "ca-central-1")
       end.

Definition env_ok : Env := {|
  AWS_REGION := None;
  S3_BUCKET_NAME := Some "backups";
  AWS_ACCESS_KEY_ID := Some "AKIA";
  AWS_SECRET_ACCESS_KEY := Some "secret"
|}.

Definition obj_jan : S3Object :=
  {| Key := Some "acme-2025-01-15-production-abc123.tar.gz";
     Size := Some 10%N; LastModified := None |}.
Definition obj_feb : S3Object :=
  {| Key := Some "acme-2025-02-01-staging-def456.tar.gz";
     Size := Some 20%N; LastModified := None |}.

Example split_ex : split "-" "a--b" = ["a"; ""; "b"].
Proof. reflexivity. Qed.
Example parse_jan :
  bf_date (parse_object obj_jan) = "15" /\
  bf_projectName (parse_object obj_jan) = "acme-2025-01" /\
  bf_projectId (parse_object obj_jan) = "abc123".
Proof. repeat split; reflexivity. Qed.

(* ------------------------------------------------------------------ *)
(** ** The status map [backupStatus] *)

Inductive BStatus := Pending | Exporting | Uploading | Completed | Failed.

Definition terminal (s : BStatus) : bool :=
  match s with Completed | Failed => true | _ => false end.

(** The value type of [backupStatus]. *)
Record Entry := {
  status : BStatus;
  message : string;
  progress : option N;
  error : option string;
  s3Location : option string;
  etag : option string;
  startTime : N
}.

(** Observable events of a run.  [EvAwait] marks a point where the running
    task gives the event loop back (an [await], or a promise callback). *)
Inductive event :=
| EvSet (id : string) (e : Entry)   (** [backupStatus.set(id, e)] *)
| EvAwait
| EvExport                          (** [exportDataset(...)] is called *)
| EvUpload                          (** [new Upload(...)] and [upload.done()] *)
| EvUnlink (path : string)          (** [fs.unlinkSync(path)] succeeds *)
| EvCleanupLogged (e : jerr).       (** [console.error('Failed to cleanup file:', e)] *)

Record World := {
  w_status : gmap string Entry;     (** [backupStatus] *)
  w_files : gmap string N;          (** local files and their sizes *)
  w_clock : N                       (** [Date.now()] *)
}.

Inductive res (A : Type) := Ok (a : A) | Throw (e : jerr).
Arguments Ok {A} a.
Arguments Throw {A} e.

(** The result of running a computation: the new world, the events it
    produced, and its value or the error it threw. *)
Record step (A : Type) := mk_step {
  st_world : World;
  st_log : list event;
  st_res : res A
}.
Arguments mk_step {A} _ _ _.
Arguments st_world {A} _.
Arguments st_log {A} _.
Arguments st_res {A} _.

(** State, event log and exceptions. *)
Definition M (A : Type) : Type := World -> step A.

#[global] Instance M_ret : MRet M := fun A a w => mk_step w [] (Ok a).
#[global] Instance M_bind : MBind M := fun A B k m w =>
  let s1 := m w in
  match st_res s1 with
  | Ok a =>
      let s2 := k a (st_world s1) in
      mk_step (st_world s2) (st_log s1 ++ st_log s2)%list (st_res s2)
  | Throw e => mk_step (st_world s1) (st_log s1) (Throw e)
  end.
#[global] Instance M_throw : MThrow jerr M := fun A e w => mk_step w [] (Throw e).

(** [try { m } catch (e) { h(e) }] *)
Definition catch {A} (m : M A) (h : jerr -> M A) : M A := fun w =>
  let s1 := m w in
  match st_res s1 with
  | Ok a => s1
  | Throw e =>
      let s2 := h e (st_world s1) in
      mk_step (st_world s2) (st_log s1 ++ st_log s2)%list (st_res s2)
  end.

(** The settled result of a promise, as seen by [.catch]. *)
Definition attempt {A} (m : M A) : M (res A) := fun w =>
  let s1 := m w in mk_step (st_world s1) (st_log s1) (Ok (st_res s1)).

Definition emit (ev : event) : M unit := fun w => mk_step w [ev] (Ok tt).

Definition now : M N := fun w => mk_step w [] (Ok (w_clock w)).

Definition set_status (id : string) (e : Entry) : M unit := fun w =>
  mk_step {| w_status := <[id := e]> (w_status w); w_files := w_files w;
             w_clock := w_clock w |} [EvSet id e] (Ok tt).

Definition get_status (id : string) : M (option Entry) := fun w =>
  mk_step w [] (Ok (w_status w !! id)).

(** [await p]: the task yields, [d] milliseconds pass, [during] runs
    (what the awaited operation and its callbacks do meanwhile), and the
    task resumes with the settled result [r]. *)
Definition await_ {A} (d : N) (during : M unit) (r : res A) : M A :=
  emit EvAwait;;
  (fun w => mk_step {| w_status := w_status w; w_files := w_files w;
                       w_clock := (w_clock w + d)%N |} [] (Ok tt));;
  during;;
  match r with Ok a => mret a | Throw e => mthrow e end.

(** [fs.existsSync(path)] *)
Definition existsSync (path : string) : M bool := fun w =>
  mk_step w [] (Ok (bool_decide (is_Some (w_files w !! path)))).

(** [fs.unlinkSync(path)]: throws when the file is absent, or with the
    given error (permissions, ...). *)
Definition unlinkSync (path : string) (failure : option jerr) : M unit := fun w =>
  match w_files w !! path, failure with
  | None, _ =>
      mk_step w [] (Throw (JsError ("ENOENT: no such file or directory, unlink '"
                                    +:+ path +:+ "'")))
  | Some _, Some e => mk_step w [] (Throw e)
  | Some _, None =>
      mk_step {| w_status := w_status w; w_files := delete path (w_files w);
                 w_clock := w_clock w |} [EvUnlink path] (Ok tt)
  end.

(** A file appears at [path] (or is left as it is). *)
Definition write_file (path : string) (size : option N) : M unit := fun w =>
  match size with
  | Some n => mk_step {| w_status := w_status w; w_files := <[path := n]> (w_files w);
                         w_clock := w_clock w |} [] (Ok tt)
  | None => mk_step w [] (Ok tt)
  end.

Fixpoint iter_ {A} (f : A -> M unit) (l : list A) : M unit :=
  match l with
  | [] => mret tt
  | x :: l' => f x;; iter_ f l'
  end.

(* ------------------------------------------------------------------ *)
(** ** [performBackup] and the [GET /api/backup/...] handler *)

(** The route parameters [req.params]. *)
Record Params := {
  projectId : string;
  dataset : string;
  apiVersion : string;
  token : string;
  projectName : string
}.

(** What the collaborators do during one run: the Sanity client, the
    export library, the S3 upload and the file system. *)
Record Outcomes := {
  today : string;                        (** the date [createFilename] embeds *)
  createClient_throws : option jerr;     (** [createClient({...})] throws *)
  fetch_delay : N;
  fetch_result : option jerr;            (** [client.fetch(...)] rejects *)
  export_delay : N;
  export_file : option N;                (** size of the file the export leaves *)
  export_result : option jerr;           (** [exportDataset(...)] rejects *)
  upload_delay : N;
  upload_progress : list (N * N);        (** [httpUploadProgress] (loaded, total) *)
  upload_result : res (option string);   (** [upload.done()]: the ETag, or an error *)
  unlink_result : option jerr;           (** [fs.unlinkSync] after the upload *)
  cleanup_result : option jerr           (** [statSync]/[unlinkSync] in the catch *)
}.

(** Modelled from the spec: [createFilename] of [./utils/lib] (not part of
    the sources), following the archive filename convention
    [{projectName}-{date}-{dataset}-{projectId}.tar.gz]; it is
    deterministic, so the call in the catch block names the same file as
    the call in the try block. *)
Definition createFilename (date projectId dataset projectName : string) : string :=
  projectName +:+ "-" +:+ date +:+ "-" +:+ dataset +:+ "-" +:+ projectId +:+ ".tar.gz".

Definition mk_entry (s : BStatus) (msg : string) (t : N) : Entry :=
  {| status := s; message := msg; progress := None; error := None;
     s3Location := None; etag := None; startTime := t |}.

(** [{status: 'failed', message: 'Backup failed', error: msg, startTime: t}] *)
Definition failed_entry (msg : string) (t : N) : Entry :=
  {| status := Failed; message := "Backup failed"; progress := None;
     error := Some msg; s3Location := None; etag := None; startTime := t |}.

(** A JavaScript number holding the integer [n]: the IEEE 754 double
    nearest to it (exact below 2^53). *)
Definition js_number (n : N) : SpecFloat.spec_float :=
  SpecFloat.binary_normalize 53 1024 (Z.of_N n) 0 false.

(** [Math.round(x)] for a non-negative finite double [x = m * 2^e]: the
    nearest integer, halves rounded up.  Zero gives 0; negative, infinite
    and NaN values, which the listener never rounds (its operands are
    non-zero byte counts), are mapped to 0 as well. *)
Definition math_round (x : SpecFloat.spec_float) : N :=
  match x with
  | SpecFloat.S754_finite false m e =>
      if (0 <=? e)%Z then Z.to_N (Z.pos m * 2 ^ e)
      else Z.to_N ((2 * Z.pos m + 2 ^ (- e)) / 2 ^ (1 - e))
  | _ => 0%N
  end.

(** [Math.round((progress.loaded / progress.total) * 100)], in double
    precision with round-to-nearest-even division and multiplication. *)
Definition percentage (loaded total : N) : N :=
  math_round (SpecFloat.SFmul 53 1024
                (SpecFloat.SFdiv 53 1024 (js_number loaded) (js_number total))
                (js_number 100)).

(** [{...backupStatus.get(backupId)!}]: spreading [undefined] gives an
    object with no fields; it only happens for an id with no entry, which
    the handler rules out by writing the Pending entry first. *)
Definition spread (o : option Entry) : Entry :=
  match o with Some e => e | None => mk_entry Pending "" 0 end.

(** The [httpUploadProgress] listener. *)
Definition on_progress (backupId : string) (ev : N * N) : M unit :=
  let '(loaded, total) := ev in
  if negb (loaded =? 0)%N && negb (total =? 0)%N then
    let pct := percentage loaded total in
    cur ← get_status backupId;
    let e := spread cur in
    set_status backupId
      {| status := Uploading;
         message := "Uploading to S3... " +:+ num_to_string pct +:+ "%";
         progress := Some pct;
         error := error e; s3Location := s3Location e; etag := etag e;
         startTime := startTime e |}
  else mret tt.

Definition fail_with {A} (o : option jerr) (a : A) : res A :=
  match o with Some e => Throw e | None => Ok a end.

(** The [try] block of [performBackup]. *)
Definition performBackup_try (env : Env) (o : Outcomes) (backupId : string)
    (p : Params) : M unit :=
  (if truthy (S3_BUCKET_NAME env) then mret tt
   else mthrow (JsError "S3_BUCKET_NAME environment variable is not set"));;
  (if truthy (AWS_ACCESS_KEY_ID env) then mret tt
   else mthrow (JsError "AWS_ACCESS_KEY_ID environment variable is not set"));;
  (if truthy (AWS_SECRET_ACCESS_KEY env) then mret tt
   else mthrow (JsError "AWS_SECRET_ACCESS_KEY environment variable is not set"));;
  (match createClient_throws o with Some e => mthrow e | None => mret tt end);;
  catch (await_ (fetch_delay o) (mret tt) (fail_with (fetch_result o) tt))
    (fun sanityError =>
       mthrow (JsError ("Failed to connect to Sanity: "
                        +:+ err_message "Unknown error" sanityError)));;
  let filename := createFilename (today o) (projectId p) (dataset p) (projectName p) in
  t1 ← now;
  set_status backupId (mk_entry Exporting "Exporting data" t1);;
  emit EvExport;;
  await_ (export_delay o) (write_file filename (export_file o))
         (fail_with (export_result o) tt);;
  t2 ← now;
  set_status backupId (mk_entry Uploading "Uploading to S3..." t2);;
  fileExists ← existsSync filename;
  (if (fileExists : bool) then mret tt
   else mthrow (JsError ("Export file not found: " +:+ filename)));;
  emit EvUpload;;
  s3ETag ← await_ (upload_delay o)
                  (iter_ (on_progress backupId) (upload_progress o))
                  (upload_result o);
  unlinkSync filename (unlink_result o);;
  t3 ← now;
  set_status backupId
    {| status := Completed; message := "Backup completed successfully";
       progress := None; error := None; s3Location := Some filename;
       etag := s3ETag; startTime := t3 |}.

(** The [catch] block of [performBackup]. *)
Definition performBackup_catch (o : Outcomes) (backupId : string) (p : Params)
    (err : jerr) : M unit :=
  let filename := createFilename (today o) (projectId p) (dataset p) (projectName p) in
  fileExists ← existsSync filename;
  (if (fileExists : bool)
   then catch (unlinkSync filename (cleanup_result o))
              (fun cleanupError => emit (EvCleanupLogged cleanupError))
   else mret tt);;
  let errorMessage := err_message "Unknown error" err in
  t ← now;
  set_status backupId (failed_entry errorMessage t);;
  mthrow err.

Definition performBackup (env : Env) (o : Outcomes) (backupId : string)
    (p : Params) : M unit :=
  catch (performBackup_try env o backupId p) (performBackup_catch o backupId p).

(** [`${projectId}-${dataset}-${Date.now()}`] *)
Definition make_backupId (p : Params) (t : N) : string :=
  projectId p +:+ "-" +:+ dataset p +:+ "-" +:+ num_to_string t.

(** The [.catch(error => ...)] attached to the detached [performBackup]
    promise; it runs in a later microtask. *)
Definition route_catch (backupId : string) (err : jerr) : M unit :=
  await_ 0 (mret tt) (Ok tt);;
  t ← now;
  set_status backupId (failed_entry (err_message "Unknown error" err) t).

(** [performBackup(...).catch(error => ...)]: the promise is not awaited
    by the handler. *)
Definition performBackup_detached (env : Env) (o : Outcomes) (backupId : string)
    (p : Params) : M unit :=
  r ← attempt (performBackup env o backupId p);
  match r with
  | Ok _ => mret tt
  | Throw e => route_catch backupId e
  end.

(** [GET /api/backup/:projectId/:dataset/:apiVersion/:token/:projectName]
    with the whole life of the job it starts.  The handler answers
    [{status: 'OK', backupId}] at the end of its synchronous segment, that
    is, at the first [EvAwait] of the log ([sync_segment] below). *)
Definition startBackup (env : Env) (o : Outcomes) (p : Params) : M string :=
  t0 ← now;
  let backupId := make_backupId p t0 in
  t1 ← now;
  set_status backupId (mk_entry Pending "Starting backup process..." t1);;
  performBackup_detached env o backupId p;;
  mret backupId.

(** The events of a log up to its first suspension point. *)
Fixpoint sync_segment (l : list event) : list event :=
  match l with
  | [] => []
  | EvAwait :: _ => []
  | ev :: l' => ev :: sync_segment l'
  end.

(** The status map after a sequence of events. *)
Fixpoint replay (m : gmap string Entry) (l : list event) : gmap string Entry :=
  match l with
  | [] => m
  | EvSet id e :: l' => replay (<[id := e]> m) l'
  | _ :: l' => replay m l'
  end.

(** [GET /api/backup/status/:backupId] at time [tnow]. *)
Inductive StatusResponse :=
| StatusNotFound                       (** 404 [{status:'ERROR', message:'Backup not found'}] *)
| StatusView (st : BStatus) (msg : string) (prog : option N) (err : option string)
    (loc : option string) (tag : option string) (start : N) (duration : Z).

Definition getStatus (m : gmap string Entry) (tnow : N) (backupId : string)
    : StatusResponse :=
  match m !! backupId with
  | None => StatusNotFound
  | Some s => StatusView (status s) (message s) (progress s) (error s)
                (s3Location s) (etag s) (startTime s)
                (Z.of_N tnow - Z.of_N (startTime s))%Z
  end.

(* ------------------------------------------------------------------ *)
(** ** [GET /api/backups/download/:key] (any key, slashes included) *)

(** A JavaScript string as its UTF-16 code units: [req.params.key] is
    such a string (percent-decoded by the router), and Node checks a
    header value code unit by code unit. *)
Definition jsstring := list N.

(** An ASCII string literal of the source as a JavaScript string. *)
Definition js (s : string) : jsstring :=
  map (fun a => N.of_nat (nat_of_ascii a)) (list_ascii_of_string s).

(** [s.split(c)] on JavaScript strings, for a one-code-unit separator. *)
Fixpoint split_js (c : N) (s : jsstring) : list jsstring :=
  match s with
  | [] => [[]]
  | a :: s' =>
      let r := split_js c s' in
      if (a =? c)%N then [] :: r
      else match r with
           | h :: t => (a :: h) :: t
           | [] => [[a]]
           end
  end.

(** [key.split('/').pop()] ('/' is code unit 47); [split] never returns
    an empty array, so the default of [last] is never used. *)
Definition last_segment (key : jsstring) : jsstring :=
  List.last (split_js 47 key) [].

(** The code units Node accepts in a header value: [res.setHeader] throws
    [ERR_INVALID_CHAR] when the value matches [/[^\t\x20-\x7e\x80-\xff]/]. *)
Definition header_char_ok (c : N) : bool :=
  ((c =? 9) || ((32 <=? c) && (c <=? 126)) || ((128 <=? c) && (c <=? 255)))%N.

(** The value given to [res.setHeader('Content-Disposition', ...)]:
    [attachment; filename="<last segment>"] (the quote is code unit 34). *)
Definition content_disposition (key : jsstring) : jsstring :=
  (js "attachment; filename=" ++ [34%N] ++ last_segment key ++ [34%N])%list.

Definition dquote : string := String (Ascii.ascii_of_nat 34) EmptyString.

(** The message of the [ERR_INVALID_CHAR] error [res.setHeader] throws
    for that header. *)
Definition invalid_header_msg : string :=
  "Invalid character in header content [" +:+ dquote +:+ "Content-Disposition"
  +:+ dquote +:+ "]".

(** The outcome of [s3Client.send(new GetObjectCommand({Bucket, Key}))]
    for the requested key: a thrown error (for instance [NoSuchKey]), or
    a response with an optional [Body] stream and [ContentLength]. *)
Inductive GetOutcome :=
| GetThrows (e : jerr)
| GetReturns (body : option string) (contentLength : option N).

Inductive DownloadResponse :=
| DlError (code : N) (error : string)
    (** [res.status(code).json({error, details})]; [details], the stack,
        is not modelled *)
| DlStream (contentType : string) (disposition : jsstring)
    (contentLength : option string) (body : string).
    (** headers set, then [stream.pipe(res)] *)

(** The handler, given the storage fetch [get] it calls with [Key: key];
    it also returns the keys it asked storage for.  Every throw inside the
    [try] (the fetch's, the missing body's, and [setHeader]'s on an
    invalid header value) reaches the [catch], which answers 500 with the
    error's message. *)
Definition download_handler (env : Env) (key : jsstring)
    (get : jsstring -> GetOutcome) : DownloadResponse * list jsstring :=
  if negb (truthy (S3_BUCKET_NAME env))
  then (DlError 500 "S3_BUCKET_NAME environment variable is not set", [])
  else match get key with
       | GetThrows e => (DlError 500 (err_message "Unknown error occurred" e), [key])
       | GetReturns None _ =>
           (DlError 500 "No response body received from S3", [key])
       | GetReturns (Some body) len =>
           if forallb header_char_ok (content_disposition key)
           then (DlStream "application/gzip" (content_disposition key)
                   (match len with
                    | Some n => if (n =? 0)%N then None else Some (num_to_string n)
                    | None => None
                    end)
                   body, [key])
           else (DlError 500 invalid_header_msg, [key])
       end.

(* ------------------------------------------------------------------ *)
(** ** Sample inputs *)

Definition env_nobucket : Env := {|
  AWS_REGION := None;
  S3_BUCKET_NAME := None;
  AWS_ACCESS_KEY_ID := Some "AKIA";
  AWS_SECRET_ACCESS_KEY := Some "secret"
|}.

Definition p_acme : Params := {|
  projectId := "abc123"; dataset := "production"; apiVersion := "2023-05-03";
  token := "sk"; projectName := "acme"
|}.

(** Another invocation for the same project and dataset, with another
    token, API version and project name. *)
Definition p_acme_other : Params := {|
  projectId := "abc123"; dataset := "production"; apiVersion := "2024-01-01";
  token := "sk2"; projectName := "acme-staging"
|}.

(** A run where every collaborator succeeds; the export leaves an empty
    file. *)
Definition o_empty_export : Outcomes := {|
  today := "2025-01-15";
  createClient_throws := None;
  fetch_delay := 5; fetch_result := None;
  export_delay := 100; export_file := Some 0%N; export_result := None;
  upload_delay := 50; upload_progress := [(5, 10); (10, 10)]%N;
  upload_result := Ok (Some "etag1");
  unlink_result := None; cleanup_result := None
|}.

(** A run whose upload is refused and whose cleanup deletion throws too. *)
Definition o_upload_denied : Outcomes := {|
  today := "2025-01-15";
  createClient_throws := None;
  fetch_delay := 5; fetch_result := None;
  export_delay := 100; export_file := Some 42%N; export_result := None;
  upload_delay := 50; upload_progress := [];
  upload_result := Throw (JsError "Access Denied");
  unlink_result := None; cleanup_result := Some (JsError "EBUSY: resource busy")
|}.

(** A run whose export resolves without leaving a file behind. *)
Definition o_no_file : Outcomes := {|
  today := "2025-01-15";
  createClient_throws := None;
  fetch_delay := 5; fetch_result := None;
  export_delay := 100; export_file := None; export_result := None;
  upload_delay := 50; upload_progress := [];
  upload_result := Ok (Some "etag1");
  unlink_result := None; cleanup_result := None
|}.

Definition w_start : World := {| w_status := ∅; w_files := ∅; w_clock := 1000 |}.

Definition obj_short : S3Object :=
  {| Key := Some "backup.tar.gz"; Size := Some 7%N; LastModified := None |}.

(** A bucket without the requested object: the fetch throws S3's
    [NoSuchKey] error. *)
Definition get_missing (key : jsstring) : GetOutcome :=
  GetThrows (JsError "The specified key does not exist.").

(** A bucket holding a small archive under every key. *)
Definition get_archive (key : jsstring) : GetOutcome :=
  GetReturns (Some "<gzip bytes>") (Some 7%N).

(* ------------------------------------------------------------------ *)
(** ** Concrete runs of a backup job *)

Definition acme_id : string := "abc123-production-1000".

(** A run of the detached job that fails in the pre-flight check, and the
    entry its first write leaves. *)
Definition run_nobucket : step string :=
  startBackup env_nobucket o_empty_export p_acme w_start.

Definition run_empty_export : step string :=
  startBackup env_ok o_empty_export p_acme w_start.

Definition failed_nobucket (t : N) : Entry :=
  failed_entry "S3_BUCKET_NAME environment variable is not set" t.

(** The archive path [performBackup] computes. *)
Definition filename_of (o : Outcomes) (p : Params) : string :=
  createFilename (today o) (projectId p) (dataset p) (projectName p).

(** The state right after the route writes the Pending entry. *)
Definition pending_world (p : Params) (w : World) : World :=
  st_world (set_status (make_backupId p (w_clock w))
              (mk_entry Pending "Starting backup process..." (w_clock w)) w).

(** The entries a log writes for [id], in order. *)
Fixpoint writes_to (id : string) (l : list event) : list Entry :=
  match l with
  | [] => []
  | EvSet i e :: l' => if String.eqb i id then e :: writes_to id l' else writes_to id l'
  | _ :: l' => writes_to id l'
  end.

(** [e] with only its [startTime] changed. *)
Definition with_startTime (e : Entry) (t : N) : Entry :=
  {| status := status e; message := message e; progress := progress e;
     error := error e; s3Location := s3Location e; etag := etag e; startTime := t |}.

(* ------------------------------------------------------------------ *)
(** ** Writes of non-terminal entries *)

(** No event of [l] writes a Completed or Failed entry. *)
Definition nt (l : list event) : Prop :=
  forall id e, In (EvSet id e) l -> terminal (status e) = false.

(** A computation that never writes a terminal entry. *)
Definition quiet {A} (m : M A) : Prop := forall w, nt (st_log (m w)).

(** A computation whose only terminal write, if it returns normally, is
    its last event, and that entry satisfies [P]. *)
Definition ends_in (id : string) (P : Entry -> Prop) (m : M unit) : Prop :=
  forall w,
    match st_res (m w) with
    | Ok _ => exists pre e, st_log (m w) = (pre ++ [EvSet id e])%list /\ nt pre /\ P e
    | Throw _ => nt (st_log (m w))
    end.

(* ------------------------------------------------------------------ *)
(** ** Frames of a computation *)

(** [m] keeps the status map equal to the replay of the writes it logs,
    writes no entry but [id], and changes no local file but [path]. *)
Definition confined {A} (id path : string) (m : M A) : Prop :=
  forall w, let s := m w in
    w_status (st_world s) = replay (w_status w) (st_log s) /\
    (forall id' e, In (EvSet id' e) (st_log s) -> id' = id) /\
    (forall path', path' <> path -> w_files (st_world s) !! path' = w_files w !! path').

(** [m] leaves the local files as they are. *)
Definition keeps_files {A} (m : M A) : Prop :=
  forall w, w_files (st_world (m w)) = w_files w.

(** When [m] returns normally, no file is left at [path]. *)
Definition clears {A} (path : string) (m : M A) : Prop :=
  forall w a, st_res (m w) = Ok a -> w_files (st_world (m w)) !! path = None.


(* ------------------------------------------------------------------ *)
(** ** The web client's status check (CreateBackupButton.tsx) *)

(** The [status] field of the status route's JSON answer. *)
Definition status_string (s : BStatus) : string :=
  match s with
  | Pending => "pending" | Exporting => "exporting" | Uploading => "uploading"
  | Completed => "completed" | Failed => "failed"
  end.

Definition response_status (r : StatusResponse) : string :=
  match r with
  | StatusNotFound => "ERROR"
  | StatusView st _ _ _ _ _ _ _ => status_string st
  end.

Definition response_s3Location (r : StatusResponse) : option string :=
  match r with
  | StatusNotFound => None
  | StatusView _ _ _ _ loc _ _ _ => loc
  end.

(** [checkBackupStatus(backupId, convexBackupId)]: [r] is the parsed answer
    of [fetch(`/api/backup/status/${backupId}`)] ([None] when the fetch or
    [.json()] rejects), [update_rejects] whether the [updateBackup]
    mutation rejects.  The result is the [updateBackup] call made (its
    [status] and [s3Location]) and the delay of the next check scheduled
    with [setTimeout], if any. *)
Definition checkBackupStatus (r : option StatusResponse) (update_rejects : bool)
    : option (string * string) * option N :=
  let retry := if update_rejects then Some 30000%N else None in
  match r with
  | None => (None, Some 30000%N)
  | Some resp =>
      let st := response_status resp in
      if String.eqb st "completed"
      then (Some ("success", or_default (response_s3Location resp) ""), retry)
      else if String.eqb st "failed"
      then (Some ("error", ""), retry)
      else if String.eqb st "exporting" || String.eqb st "uploading"
      then (None, Some 30000%N)
      else (None, None)
  end.

(** [handleCreateBackup]: [create_ok] tells whether the [createBackup]
    mutation resolves, [data] is the parsed answer of the backup route
    (its [status] and [backupId] fields; [None] when the fetch or
    [.json()] rejects).  The result is the status check the handler
    schedules (the job id and the delay), or [None] when it ends in its
    catch block. *)
Definition handleCreateBackup (create_ok : bool) (data : option (string * option string))
    : option (string * N) :=
  if negb create_ok then None
  else match data with
       | Some (st, bid) =>
           if String.eqb st "OK" && truthy bid
           then Some (or_default bid "", 10000%N) else None
       | None => None
       end.

(** The JSON the backup route sends: [{status: 'OK', message, backupId}]. *)
Definition backup_route_json (backupId : string) : option (string * option string) :=
  Some ("OK", Some backupId).

(* ================================================================== *)
(** * Properties *)

(* ------------------------------------------------------------------ *)
(** ** Sorting and parsing facts *)

Lemma In_insert_by {A} (cmp : A -> A -> comparison) (x y : A) (l : list A) :
  In y (insert_by cmp x l) <-> x = y \/ In y l.
Proof.
  induction l as [|z l IH]; simpl; [tauto|].
  destruct (cmp z x); simpl; rewrite ?IH; tauto.
Qed.

Lemma In_sort_by {A} (cmp : A -> A -> comparison) (y : A) (l : list A) :
  In y (sort_by cmp l) <-> In y l.
Proof.
  induction l as [|x l IH]; simpl; [tauto|].
  rewrite In_insert_by, IH. tauto.
Qed.

Lemma endsWith_nonempty (k suf : string) :
  endsWith k suf = true -> suf <> "" -> k <> "".
Proof.
  intros H Hs ->. destruct suf as [|a suf]; [congruence|].
  unfold endsWith in H. simpl in H. discriminate.
Qed.

(** C1: on the bucket of the spec's example, the listing puts the
    January archive first, in either order of [Contents]: the date read
    from each key is the third segment from the end, which for a
    [YYYY-MM-DD] date is the day ("15" and "01"). *)
Theorem list_example_january_first :
  list_handler env_ok (ListReturns (Some [obj_jan; obj_feb]))
    = ListOk [parse_object obj_jan; parse_object obj_feb] 2 "backups" "ca-central-1" /\
  list_handler env_ok (ListReturns (Some [obj_feb; obj_jan]))
    = ListOk [parse_object obj_jan; parse_object obj_feb] 2 "backups" "ca-central-1" /\
  bf_date (parse_object obj_jan) = "15" /\
  bf_date (parse_object obj_feb) = "01" /\
  bf_key (parse_object obj_jan) = "acme-2025-01-15-production-abc123.tar.gz".
Proof. repeat split; vm_compute; reflexivity. Qed.

(** C10: every object whose key ends in [.tar.gz] but has fewer than four
    hyphen-delimited segments is listed, with empty project name, date,
    dataset and project id. *)
Theorem list_keeps_short_keys (env : Env) (contents : list S3Object)
    (obj : S3Object) (k : string) :
  truthy (S3_BUCKET_NAME env) = true ->
  In obj contents -> Key obj = Some k -> endsWith k ".tar.gz" = true ->
  (length (split "-" k) < 4)%nat ->
  exists files n bucket region,
    list_handler env (ListReturns (Some contents)) = ListOk files n bucket region /\
    exists f, In f files /\ bf_key f = k /\ bf_projectName f = "" /\
              bf_date f = "" /\ bf_dataset f = "" /\ bf_projectId f = "".
Proof.
  intros Hb Hin Hk Hend Hlen.
  unfold list_handler. rewrite Hb. simpl.
  eexists _, _, _, _. split; [reflexivity|].
  exists (parse_object obj). split.
  - unfold backup_files. apply In_sort_by, in_map, filter_In. split; [exact Hin|].
    unfold is_backup_object. rewrite Hk, Hend.
    assert (k <> "") as Hne by (apply (endsWith_nonempty k ".tar.gz"); [exact Hend | discriminate]).
    simpl. destruct (String.eqb_spec k ""); [contradiction | reflexivity].
  - unfold parse_object. rewrite Hk.
    destruct (4 <=? length (split "-" k))%nat eqn:E.
    + apply Nat.leb_le in E. lia.
    + simpl. repeat split; reflexivity.
Qed.

Lemma list_keeps_short_keys_witness :
  truthy (S3_BUCKET_NAME env_ok) = true /\ In obj_short [obj_short] /\
  Key obj_short = Some "backup.tar.gz" /\ endsWith "backup.tar.gz" ".tar.gz" = true /\
  (length (split "-" "backup.tar.gz") < 4)%nat /\
  exists files n bucket region,
    list_handler env_ok (ListReturns (Some [obj_short])) = ListOk files n bucket region /\
    exists f, In f files /\ bf_key f = "backup.tar.gz" /\ bf_projectName f = "" /\
              bf_date f = "" /\ bf_dataset f = "" /\ bf_projectId f = "".
Proof.
  refine (conj eq_refl (conj (or_introl eq_refl) (conj eq_refl (conj eq_refl (conj _ _))))).
  - simpl. lia.
  - apply (list_keeps_short_keys env_ok [obj_short] obj_short "backup.tar.gz");
      [reflexivity | left; reflexivity | reflexivity | reflexivity | simpl; lia].
Defined.

(* ------------------------------------------------------------------ *)
(** ** Downloading *)

(** C9, as stated: the handler would refuse an empty key itself, and
    answer a missing object with a NotFound error.  It does neither: the
    empty key is passed to the fetch, and the storage's "no such key"
    error comes back as a 500. *)
Lemma download_empty_key_reaches_storage :
  download_handler env_ok [] get_missing
    = (DlError 500 "The specified key does not exist.", [[]]).
Proof. reflexivity. Qed.

(** C9, amended: without a configured bucket the handler answers 500
    without asking storage.  With one, it asks storage for exactly the
    requested key, and a fetch that throws (a missing key or any storage
    error), a response without a body, or a file name the
    [Content-Disposition] header cannot carry is answered with HTTP 500
    and the error's message.  Every error response of the handler has
    status 500. *)
Theorem download_errors_are_500 (env : Env) (key : jsstring)
    (get : jsstring -> GetOutcome) :
  (truthy (S3_BUCKET_NAME env) = false ->
     download_handler env key get
       = (DlError 500 "S3_BUCKET_NAME environment variable is not set", [])) /\
  (truthy (S3_BUCKET_NAME env) = true ->
     snd (download_handler env key get) = [key] /\
     (forall e, get key = GetThrows e ->
        fst (download_handler env key get)
          = DlError 500 (err_message "Unknown error occurred" e)) /\
     (forall len, get key = GetReturns None len ->
        fst (download_handler env key get)
          = DlError 500 "No response body received from S3") /\
     (forall body len, get key = GetReturns (Some body) len ->
        forallb header_char_ok (content_disposition key) = false ->
        fst (download_handler env key get) = DlError 500 invalid_header_msg)) /\
  (forall code msg, fst (download_handler env key get) = DlError code msg ->
     code = 500%N).
Proof.
  unfold download_handler. split; [|split].
  - intros ->. reflexivity.
  - intros ->. cbn [negb]. split; [|split; [|split]].
    + destruct (get key) as [e|[body|] len]; [reflexivity| |reflexivity].
      destruct (forallb header_char_ok (content_disposition key)); reflexivity.
    + intros e ->. reflexivity.
    + intros len ->. reflexivity.
    + intros body len -> ->. reflexivity.
  - intros code msg.
    destruct (negb (truthy (S3_BUCKET_NAME env))).
    + cbn [fst]. congruence.
    + destruct (get key) as [e|[body|] len]; cbn [fst]; try congruence.
      destruct (forallb header_char_ok (content_disposition key)); cbn [fst]; congruence.
Qed.

Lemma download_errors_are_500_witness :
  download_handler env_ok (js "backups/acme.tar.gz") get_missing
    = (DlError 500 "The specified key does not exist.", [js "backups/acme.tar.gz"]).
Proof.
  destruct (download_errors_are_500 env_ok (js "backups/acme.tar.gz") get_missing)
    as [_ [Hok _]].
  destruct (Hok eq_refl) as [Hsnd [Hthrow _]].
  specialize (Hthrow _ eq_refl).
  destruct (download_handler env_ok (js "backups/acme.tar.gz") get_missing) as [r k].
  simpl in Hsnd, Hthrow. subst. reflexivity.
Defined.

(* ------------------------------------------------------------------ *)
(** ** Concrete runs of a backup job: the claims as stated *)

Ltac pick_in := repeat (first [left; reflexivity | right]).

(** C2, as stated, fails: when the job fails, [performBackup]'s catch
    block writes the Failed entry and rethrows, and the route's [.catch]
    writes a second Failed entry for the same id. *)
Lemma failed_entry_written_twice :
  st_log run_nobucket =
    [EvSet acme_id (mk_entry Pending "Starting backup process..." 1000);
     EvSet acme_id (failed_nobucket 1000);
     EvAwait;
     EvSet acme_id (failed_nobucket 1000)] /\
  exists l1 e l2 e',
    st_log run_nobucket = (l1 ++ EvSet acme_id e :: l2)%list /\
    terminal (status e) = true /\ In (EvSet acme_id e') l2.
Proof.
  split; [vm_compute; reflexivity|].
  exists [EvSet acme_id (mk_entry Pending "Starting backup process..." 1000)],
         (failed_nobucket 1000), [EvAwait; EvSet acme_id (failed_nobucket 1000)],
         (failed_nobucket 1000).
  split; [vm_compute; reflexivity|]. split; [reflexivity|]. pick_in.
Qed.

(** C3: every full write of the entry stamps [startTime] with the current
    [Date.now()].  In a run where the connectivity probe takes 5 ms, the
    export 100 ms and the upload 50 ms, the Pending entry has startTime
    1000, the Exporting entry 1005, the Uploading entry 1105 and the
    Completed entry 1155, so a status query at 1200 reports a duration of
    45 ms instead of 200 ms. *)
Theorem startTime_restamped :
  List.map (fun ev => match ev with EvSet _ e => Some (status e, startTime e) | _ => None end)
           (st_log run_empty_export) =
    [Some (Pending, 1000%N); None; Some (Exporting, 1005%N); None; None;
     Some (Uploading, 1105%N); None; None; Some (Uploading, 1105%N);
     Some (Uploading, 1105%N); None; Some (Completed, 1155%N)] /\
  getStatus (w_status (st_world run_empty_export)) 1200 acme_id =
    StatusView Completed "Backup completed successfully" None None
      (Some "acme-2025-01-15-production-abc123.tar.gz") (Some "etag1") 1155 45.
Proof. split; vm_compute; reflexivity. Qed.

(** C4, as stated, fails: when the bucket is not configured the
    [performBackup] call throws before its first [await], so its catch
    block runs within the handler's synchronous segment and a status query
    right after the handler answers sees Failed, not Pending. *)
Lemma status_after_return_failed :
  getStatus (replay (w_status w_start) (sync_segment (st_log run_nobucket))) 1000 acme_id
    = StatusView Failed "Backup failed" None
        (Some "S3_BUCKET_NAME environment variable is not set") None None 1000 0.
Proof. vm_compute. reflexivity. Qed.

(** C7, as stated, fails: the export leaves an empty file, yet the job
    uploads it and completes; only the existence of the file is checked. *)
Lemma empty_export_is_uploaded :
  In EvUpload (st_log run_empty_export) /\
  option_map status (w_status (st_world run_empty_export) !! acme_id) = Some Completed.
Proof.
  split; [vm_compute; pick_in | vm_compute; reflexivity].
Qed.

(** C8, as stated, fails: two invocations for the same project and
    dataset in the same millisecond (the second one while the first job's
    Pending entry is in the map) get the same id. *)
Lemma backupId_collision :
  let w_second := st_world (set_status acme_id
                    (mk_entry Pending "Starting backup process..." 1000) w_start) in
  st_res run_empty_export = Ok acme_id /\
  st_res (startBackup env_nobucket o_empty_export p_acme w_second) = Ok acme_id.
Proof. split; vm_compute; reflexivity. Qed.

(* ------------------------------------------------------------------ *)
(** ** Running the handler: equations *)

Ltac unfold_M := unfold mbind, mret, mthrow, M_bind, M_ret, M_throw.

Section Monad.
Context {A B : Type}.

Lemma bind_res (m : M A) (k : A -> M B) (w : World) :
  st_res ((m ≫= k) w) =
    match st_res (m w) with Ok a => st_res (k a (st_world (m w))) | Throw e => Throw e end.
Proof. unfold_M. cbn. destruct (st_res (m w)); reflexivity. Qed.

Lemma bind_log (m : M A) (k : A -> M B) (w : World) :
  st_log ((m ≫= k) w) =
    (st_log (m w) ++ match st_res (m w) with
                     | Ok a => st_log (k a (st_world (m w)))
                     | Throw _ => []
                     end)%list.
Proof. unfold_M. cbn. destruct (st_res (m w)); [reflexivity | rewrite app_nil_r; reflexivity]. Qed.

Lemma bind_world (m : M A) (k : A -> M B) (w : World) :
  st_world ((m ≫= k) w) =
    match st_res (m w) with Ok a => st_world (k a (st_world (m w))) | Throw _ => st_world (m w) end.
Proof. unfold_M. cbn. destruct (st_res (m w)); reflexivity. Qed.

Lemma catch_res (m : M A) (h : jerr -> M A) (w : World) :
  st_res (catch m h w) =
    match st_res (m w) with Ok a => Ok a | Throw e => st_res (h e (st_world (m w))) end.
Proof. unfold catch. cbn. destruct (st_res (m w)) eqn:E; rewrite ?E; reflexivity. Qed.

Lemma catch_log (m : M A) (h : jerr -> M A) (w : World) :
  st_log (catch m h w) =
    (st_log (m w) ++ match st_res (m w) with
                     | Ok _ => []
                     | Throw e => st_log (h e (st_world (m w)))
                     end)%list.
Proof. unfold catch. cbn. destruct (st_res (m w)); [rewrite app_nil_r|]; reflexivity. Qed.

Lemma catch_world (m : M A) (h : jerr -> M A) (w : World) :
  st_world (catch m h w) =
    match st_res (m w) with Ok _ => st_world (m w) | Throw e => st_world (h e (st_world (m w))) end.
Proof. unfold catch. cbn. destruct (st_res (m w)); reflexivity. Qed.

End Monad.

Ltac run := repeat (rewrite ?bind_res, ?bind_log, ?bind_world, ?catch_res, ?catch_log,
                            ?catch_world; cbn).

Section Run.
Variables (env : Env) (o : Outcomes) (p : Params).


Lemma detached_res (id : string) (w : World) :
  st_res (performBackup_detached env o id p w) = Ok tt.
Proof.
  unfold performBackup_detached, attempt, route_catch, await_, emit, now, set_status.
  unfold_M. cbn. destruct (st_res (performBackup env o id p w)); reflexivity.
Qed.

Lemma detached_log (id : string) (w : World) :
  let s := performBackup env o id p w in
  st_log (performBackup_detached env o id p w) =
    (st_log s ++ match st_res s with
                 | Ok _ => []
                 | Throw e => [EvAwait; EvSet id (failed_entry (err_message "Unknown error" e)
                                                   (w_clock (st_world s) + 0))]
                 end)%list.
Proof.
  unfold performBackup_detached, attempt, route_catch, await_, emit, now, set_status.
  unfold_M. cbn. destruct (st_res (performBackup env o id p w)); reflexivity.
Qed.

Lemma detached_world (id : string) (w : World) :
  let s := performBackup env o id p w in
  w_files (st_world (performBackup_detached env o id p w)) = w_files (st_world s) /\
  w_status (st_world (performBackup_detached env o id p w)) =
    match st_res s with
    | Ok _ => w_status (st_world s)
    | Throw e => <[id := failed_entry (err_message "Unknown error" e)
                           (w_clock (st_world s) + 0)]> (w_status (st_world s))
    end.
Proof.
  unfold performBackup_detached, attempt, route_catch, await_, emit, now, set_status.
  unfold_M. cbn. destruct (st_res (performBackup env o id p w)); split; reflexivity.
Qed.


Lemma startBackup_run (w : World) :
  let id := make_backupId p (w_clock w) in
  let s := performBackup_detached env o id p (pending_world p w) in
  st_res (startBackup env o p w) = Ok id /\
  st_world (startBackup env o p w) = st_world s /\
  st_log (startBackup env o p w) =
    EvSet id (mk_entry Pending "Starting backup process..." (w_clock w)) :: st_log s.
Proof.
  cbv zeta. pose proof (detached_res (make_backupId p (w_clock w)) (pending_world p w)) as H.
  unfold pending_world, set_status in H. cbn in H.
  unfold startBackup, now, set_status. unfold_M. cbn. rewrite H. cbn.
  split; [reflexivity | split; [reflexivity|]]. rewrite app_nil_r. reflexivity.
Qed.

(** The catch block of [performBackup]: it may delete the archive or log
    the cleanup error, then writes the Failed entry and rethrows. *)
Lemma catch_block_run (id : string) (err : jerr) (w : World) :
  let s := performBackup_catch o id p err w in
  let entry := failed_entry (err_message "Unknown error" err) (w_clock w) in
  st_res s = Throw err /\
  (exists pre, (pre = [] \/ pre = [EvUnlink (filename_of o p)] \/
                exists ce, pre = [EvCleanupLogged ce]) /\
               st_log s = (pre ++ [EvSet id entry])%list) /\
  w_status (st_world s) = <[id := entry]> (w_status w) /\
  (cleanup_result o = None -> w_files (st_world s) !! filename_of o p = None).
Proof.
  unfold performBackup_catch, unlinkSync. fold (filename_of o p). run.
  destruct (w_files w !! filename_of o p) as [size|] eqn:E; rewrite ?E; cbn; run.
  - destruct (cleanup_result o) as [ce|]; cbn; rewrite ?E; cbn; run.
    + split; [reflexivity|]. split; [exists [EvCleanupLogged ce]; split; [right; right; eauto | reflexivity]|].
      split; [reflexivity | discriminate].
    + split; [reflexivity|]. split; [exists [EvUnlink (filename_of o p)]; split; [right; left; reflexivity | reflexivity]|].
      split; [reflexivity|]. intros _. apply lookup_delete_eq.
  - split; [reflexivity|]. split; [exists []; split; [left; reflexivity | reflexivity]|].
    split; [reflexivity|]. intros _. exact E.
Qed.

(** The pre-flight checks: with a configuration value missing, the try
    block throws at once, before any event. *)
Lemma try_missing_config (id : string) (w : World) :
  truthy (S3_BUCKET_NAME env) = false \/ truthy (AWS_ACCESS_KEY_ID env) = false \/
  truthy (AWS_SECRET_ACCESS_KEY env) = false ->
  exists msg,
    In msg ["S3_BUCKET_NAME environment variable is not set";
            "AWS_ACCESS_KEY_ID environment variable is not set";
            "AWS_SECRET_ACCESS_KEY environment variable is not set"] /\
    st_res (performBackup_try env o id p w) = Throw (JsError msg) /\
    st_log (performBackup_try env o id p w) = [] /\
    st_world (performBackup_try env o id p w) = w.
Proof.
  intros H. unfold performBackup_try.
  destruct (truthy (S3_BUCKET_NAME env)) eqn:E1;
    [|eexists; split; [left; reflexivity | run; repeat split]].
  destruct (truthy (AWS_ACCESS_KEY_ID env)) eqn:E2;
    [|eexists; split; [right; left; reflexivity | run; repeat split]].
  destruct (truthy (AWS_SECRET_ACCESS_KEY env)) eqn:E3;
    [|eexists; split; [right; right; left; reflexivity | run; repeat split]].
  exfalso. intuition congruence.
Qed.

(** Past the pre-flight checks, the first event of the try block is the
    [await] of the connectivity probe. *)
Lemma try_first_await (id : string) (w : World) :
  truthy (S3_BUCKET_NAME env) = true -> truthy (AWS_ACCESS_KEY_ID env) = true ->
  truthy (AWS_SECRET_ACCESS_KEY env) = true -> createClient_throws o = None ->
  exists rest, st_log (performBackup_try env o id p w) = EvAwait :: rest.
Proof.
  intros H1 H2 H3 H4. unfold performBackup_try. rewrite H1, H2, H3, H4.
  rewrite !bind_log. cbn. rewrite catch_log. unfold await_. rewrite bind_log. cbn.
  eexists. reflexivity.
Qed.

End Run.

(* ------------------------------------------------------------------ *)
(** ** Writes of non-terminal entries: the program logic *)

Lemma nt_nil : nt [].
Proof. intros id e []. Qed.

Lemma nt_app (l1 l2 : list event) : nt l1 -> nt l2 -> nt (l1 ++ l2)%list.
Proof. intros H1 H2 id e Hin. apply in_app_or in Hin as [Hin|Hin]; eauto. Qed.

Lemma nt_app_inv (l1 l2 : list event) : nt (l1 ++ l2)%list -> nt l1 /\ nt l2.
Proof. intros H. split; intros id e Hin; apply (H id e); apply in_or_app; auto. Qed.

Lemma nt_other (ev : event) : (forall id e, ev <> EvSet id e) -> nt [ev].
Proof. intros Hne id e [Heq|[]]. exfalso. exact (Hne id e Heq). Qed.

Section Quiet.
Context {A B : Type}.

Lemma quiet_ret (a : A) : quiet (mret a : M A).
Proof. intros w. apply nt_nil. Qed.

Lemma quiet_throw (e : jerr) : quiet (mthrow e : M A).
Proof. intros w. apply nt_nil. Qed.

Lemma quiet_bind (m : M A) (k : A -> M B) :
  quiet m -> (forall a, quiet (k a)) -> quiet (m ≫= k).
Proof.
  intros Hm Hk w. rewrite bind_log. apply nt_app; [apply Hm|].
  destruct (st_res (m w)); [apply Hk | apply nt_nil].
Qed.

Lemma quiet_catch (m : M A) (h : jerr -> M A) :
  quiet m -> (forall e, quiet (h e)) -> quiet (catch m h).
Proof.
  intros Hm Hh w. rewrite catch_log. apply nt_app; [apply Hm|].
  destruct (st_res (m w)); [apply nt_nil | apply Hh].
Qed.

End Quiet.

Lemma quiet_await {A} (d : N) (during : M unit) (r : res A) :
  quiet during -> quiet (await_ d during r).
Proof.
  intros Hd. unfold await_.
  apply quiet_bind; [intros w; apply nt_other; discriminate | intros _].
  apply quiet_bind; [intros w; apply nt_nil | intros _].
  apply quiet_bind; [exact Hd | intros _].
  destruct r; [apply quiet_ret | apply quiet_throw].
Qed.

Lemma quiet_emit (ev : event) : (forall id e, ev <> EvSet id e) -> quiet (emit ev).
Proof. intros H w. apply nt_other. exact H. Qed.

Lemma quiet_set (id : string) (e : Entry) :
  terminal (status e) = false -> quiet (set_status id e).
Proof. intros H w id' e' [Heq|[]]. injection Heq as -> ->. exact H. Qed.

Lemma quiet_now : quiet now.
Proof. intros w. apply nt_nil. Qed.

Lemma quiet_get (id : string) : quiet (get_status id).
Proof. intros w. apply nt_nil. Qed.

Lemma quiet_existsSync (path : string) : quiet (existsSync path).
Proof. intros w. apply nt_nil. Qed.

Lemma quiet_unlinkSync (path : string) (f : option jerr) : quiet (unlinkSync path f).
Proof.
  intros w. unfold unlinkSync.
  destruct (w_files w !! path), f; cbn; solve [apply nt_nil | apply nt_other; discriminate].
Qed.

Lemma quiet_write_file (path : string) (size : option N) : quiet (write_file path size).
Proof. intros w. unfold write_file. destruct size; apply nt_nil. Qed.

Lemma quiet_iter {A} (f : A -> M unit) (l : list A) :
  (forall x, quiet (f x)) -> quiet (iter_ f l).
Proof.
  intros Hf. induction l as [|x l IH]; simpl.
  - apply quiet_ret.
  - apply quiet_bind; [apply Hf | intros _; exact IH].
Qed.

Lemma quiet_on_progress (id : string) (ev : N * N) : quiet (on_progress id ev).
Proof.
  destruct ev as [loaded total]. unfold on_progress.
  destruct (negb (loaded =? 0)%N && negb (total =? 0)%N); [|apply quiet_ret].
  apply quiet_bind; [apply quiet_get | intros cur].
  apply quiet_set. reflexivity.
Qed.

Ltac quiet_tac :=
  repeat first
    [ apply quiet_bind; [| intros ?]
    | apply quiet_catch; [| intros ?]
    | apply quiet_await
    | apply quiet_iter; intros ?
    | apply quiet_ret | apply quiet_throw | apply quiet_now | apply quiet_get
    | apply quiet_existsSync | apply quiet_unlinkSync | apply quiet_write_file
    | apply quiet_on_progress
    | apply quiet_emit; discriminate
    | apply quiet_set; reflexivity
    | match goal with
      | |- quiet (if ?b then _ else _) => destruct b
      | |- quiet (match ?x with _ => _ end) => destruct x
      end ].


Lemma ends_bind {A} (id : string) (P : Entry -> Prop) (m : M A) (k : A -> M unit) :
  quiet m -> (forall a, ends_in id P (k a)) -> ends_in id P (m ≫= k).
Proof.
  intros Hm Hk w. rewrite bind_res, bind_log. specialize (Hm w).
  destruct (st_res (m w)) as [a|e].
  - specialize (Hk a (st_world (m w))).
    destruct (st_res (k a (st_world (m w)))).
    + destruct Hk as (pre & e & Hl & Hn & HP). exists (st_log (m w) ++ pre)%list, e.
      rewrite Hl, app_assoc. split; [reflexivity|]. split; [apply nt_app|]; assumption.
    + apply nt_app; assumption.
  - rewrite app_nil_r. exact Hm.
Qed.

Lemma ends_set (id : string) (P : Entry -> Prop) (e : Entry) :
  P e -> ends_in id P (set_status id e).
Proof. intros HP w. cbn. exists [], e. split; [reflexivity|]. split; [apply nt_nil | exact HP]. Qed.

(** The try block of [performBackup] writes a terminal entry only at its
    very end, and that entry is Completed. *)
Lemma try_ends_completed (env : Env) (o : Outcomes) (id : string) (p : Params) :
  ends_in id (fun e => status e = Completed) (performBackup_try env o id p).
Proof.
  unfold performBackup_try.
  repeat (apply ends_bind; [quiet_tac | intros ?]).
  apply ends_set. reflexivity.
Qed.

Lemma nt_catch_prefix (pre : list event) (f : string) :
  (pre = [] \/ pre = [EvUnlink f] \/ exists ce, pre = [EvCleanupLogged ce]) -> nt pre.
Proof.
  intros [->|[->|[ce ->]]]; [apply nt_nil | apply nt_other; discriminate | apply nt_other; discriminate].
Qed.

(** [performBackup] ends with one terminal write, its last event:
    Completed when it returns normally, Failed with the message of the
    error it rethrows otherwise. *)
Lemma performBackup_shape (env : Env) (o : Outcomes) (id : string) (p : Params) (w : World) :
  let s := performBackup env o id p w in
  match st_res s with
  | Ok _ => exists pre e, st_log s = (pre ++ [EvSet id e])%list /\ nt pre /\ status e = Completed
  | Throw err => exists pre t,
      st_log s = (pre ++ [EvSet id (failed_entry (err_message "Unknown error" err) t)])%list /\ nt pre
  end.
Proof.
  cbv zeta. unfold performBackup. rewrite catch_res, catch_log.
  pose proof (try_ends_completed env o id p w) as Ht.
  destruct (st_res (performBackup_try env o id p w)) as [a|e].
  - rewrite app_nil_r. exact Ht.
  - destruct (catch_block_run o p id e (st_world (performBackup_try env o id p w)))
      as (Hr & (pre & Hpre & Hl) & _).
    rewrite Hr. eexists _, _. rewrite Hl, app_assoc. split; [reflexivity|].
    apply nt_app; [exact Ht | exact (nt_catch_prefix _ _ Hpre)].
Qed.

Lemma nt_pending (id : string) (t : N) :
  nt [EvSet id (mk_entry Pending "Starting backup process..." t)].
Proof. intros i x [H|[]]. injection H as <- <-. reflexivity. Qed.

Lemma after_terminal (id : string) (X Y l1 l2 : list event) (fin e : Entry) :
  nt X ->
  (X ++ EvSet id fin :: Y)%list = (l1 ++ EvSet id e :: l2)%list ->
  terminal (status e) = true ->
  (e = fin /\ l2 = Y) \/ (exists Y1, Y = (Y1 ++ EvSet id e :: l2)%list).
Proof.
  intros HX Heq Ht.
  apply List.app_eq_app in Heq as [l [[HX' Hl] | [Hl1 Hl]]].
  - destruct l as [|x l]; simpl in Hl; injection Hl as Hx Hl.
    + subst. left. split; reflexivity.
    + subst. assert (terminal (status e) = false) as Hf.
      { apply (HX id e). apply in_or_app. right. left. reflexivity. }
      congruence.
  - destruct l as [|x l]; simpl in Hl; injection Hl as Hx Hl.
    + subst. left. split; reflexivity.
    + right. exists l. exact Hl.
Qed.

(* ------------------------------------------------------------------ *)
(** ** The lifecycle of one job *)

(** C2, amended: in the run of one job (the route and the [performBackup]
    it detaches), once a Completed entry is written for the job no later
    write for its id follows; once a Failed entry is written, at most one
    more write follows, and it is the same entry with only its
    [startTime] changed (the route's [.catch] after [performBackup]
    rethrows). *)
Theorem terminal_entry_keeps_state (env : Env) (o : Outcomes) (p : Params) (w : World)
    (l1 l2 : list event) (e : Entry) :
  st_log (startBackup env o p w) = (l1 ++ EvSet (make_backupId p (w_clock w)) e :: l2)%list ->
  terminal (status e) = true ->
  (status e = Completed -> writes_to (make_backupId p (w_clock w)) l2 = []) /\
  (status e = Failed ->
     writes_to (make_backupId p (w_clock w)) l2 = [] \/
     exists t, writes_to (make_backupId p (w_clock w)) l2 = [with_startTime e t]).
Proof.
  intros Hlog Ht.
  remember (make_backupId p (w_clock w)) as id eqn:Hid.
  destruct (startBackup_run env o p w) as (_ & _ & Hl). cbv zeta in Hl. rewrite <- Hid in Hl.
  rewrite Hl, detached_log in Hlog.
  pose proof (performBackup_shape env o id p (pending_world p w)) as Hs. cbv zeta in Hs.
  destruct (st_res (performBackup env o id p (pending_world p w))) as [a|err].
  - destruct Hs as (pre & fin & Hpl & Hn & Hc).
    rewrite Hpl, app_nil_r in Hlog.
    destruct (after_terminal id (EvSet id (mk_entry Pending "Starting backup process..." (w_clock w)) :: pre)
                [] l1 l2 fin e) as [[-> ->]|[Y1 HY]];
      [apply (nt_app [_] pre); [apply nt_pending | exact Hn] | exact Hlog | exact Ht | |].
    + rewrite Hc. split; [reflexivity | discriminate].
    + destruct Y1; discriminate.
  - destruct Hs as (pre & t & Hpl & Hn).
    rewrite Hpl, <- app_assoc in Hlog. simpl in Hlog.
    destruct (after_terminal id (EvSet id (mk_entry Pending "Starting backup process..." (w_clock w)) :: pre)
                [EvAwait; EvSet id (failed_entry (err_message "Unknown error" err)
                                     (w_clock (st_world (performBackup env o id p (pending_world p w))) + 0))]
                l1 l2 (failed_entry (err_message "Unknown error" err) t) e)
      as [[-> ->]|[Y1 HY]];
      [apply (nt_app [_] pre); [apply nt_pending | exact Hn] | exact Hlog | exact Ht | |].
    + split; [discriminate|]. intros _. right. eexists.
      simpl. rewrite String.eqb_refl. reflexivity.
    + destruct Y1 as [|x [|y Y1]]; simpl in HY; injection HY as HY.
      * discriminate.
      * subst. split; intros _; [reflexivity | left; reflexivity].
      * destruct Y1; discriminate.
Qed.

Lemma terminal_entry_keeps_state_witness :
  st_log (startBackup env_nobucket o_empty_export p_acme w_start) =
    ([EvSet (make_backupId p_acme (w_clock w_start))
        (mk_entry Pending "Starting backup process..." (w_clock w_start))]
     ++ EvSet (make_backupId p_acme (w_clock w_start)) (failed_nobucket 1000)
     :: [EvAwait; EvSet (make_backupId p_acme (w_clock w_start)) (failed_nobucket 1000)])%list /\
  terminal (status (failed_nobucket 1000)) = true /\
  (status (failed_nobucket 1000) = Failed ->
     writes_to (make_backupId p_acme (w_clock w_start))
       [EvAwait; EvSet (make_backupId p_acme (w_clock w_start)) (failed_nobucket 1000)] = [] \/
     exists t, writes_to (make_backupId p_acme (w_clock w_start))
       [EvAwait; EvSet (make_backupId p_acme (w_clock w_start)) (failed_nobucket 1000)]
       = [with_startTime (failed_nobucket 1000) t]).
Proof.
  split; [vm_compute; reflexivity|]. split; [reflexivity|].
  apply (terminal_entry_keeps_state env_nobucket o_empty_export p_acme w_start
           [EvSet (make_backupId p_acme (w_clock w_start))
              (mk_entry Pending "Starting backup process..." (w_clock w_start))]);
    [vm_compute; reflexivity | reflexivity].
Defined.

(* ------------------------------------------------------------------ *)
(** ** What the handler has done when it answers *)

Lemma sync_segment_app (l1 l2 : list event) :
  ~ In EvAwait l1 -> sync_segment (l1 ++ EvAwait :: l2)%list = l1.
Proof.
  induction l1 as [|a l1 IH]; intros H; [reflexivity|].
  destruct a; simpl;
    try (f_equal; apply IH; intros Hin; apply H; right; exact Hin).
  exfalso. apply H. left. reflexivity.
Qed.

Lemma replay_last (m : gmap string Entry) (l : list event) (id : string) (e : Entry) :
  replay m (l ++ [EvSet id e])%list !! id = Some e.
Proof.
  revert m. induction l as [|a l IH]; intros m; [apply lookup_insert_eq|].
  destruct a; simpl; apply IH.
Qed.

Lemma catch_prefix_events (pre : list event) (f : string) :
  (pre = [] \/ pre = [EvUnlink f] \/ exists ce, pre = [EvCleanupLogged ce]) ->
  ~ In EvAwait pre /\ ~ In EvExport pre /\ ~ In EvUpload pre.
Proof.
  intros [->|[->|[ce ->]]]; simpl; intuition discriminate.
Qed.

(** When the pre-flight check or [createClient] fails, the try block
    throws before its first event. *)
Lemma try_sync_throw (env : Env) (o : Outcomes) (id : string) (p : Params) (w : World) :
  truthy (S3_BUCKET_NAME env) = false \/ truthy (AWS_ACCESS_KEY_ID env) = false \/
  truthy (AWS_SECRET_ACCESS_KEY env) = false \/ (exists e, createClient_throws o = Some e) ->
  exists err, st_res (performBackup_try env o id p w) = Throw err /\
              st_log (performBackup_try env o id p w) = [] /\
              st_world (performBackup_try env o id p w) = w.
Proof.
  intros H.
  destruct (truthy (S3_BUCKET_NAME env)) eqn:E1;
    [| destruct (try_missing_config env o p id w) as (msg & _ & Hr & Hl & Hw);
       [left; exact E1 | exists (JsError msg); repeat split; assumption]].
  destruct (truthy (AWS_ACCESS_KEY_ID env)) eqn:E2;
    [| destruct (try_missing_config env o p id w) as (msg & _ & Hr & Hl & Hw);
       [right; left; exact E2 | exists (JsError msg); repeat split; assumption]].
  destruct (truthy (AWS_SECRET_ACCESS_KEY env)) eqn:E3;
    [| destruct (try_missing_config env o p id w) as (msg & _ & Hr & Hl & Hw);
       [right; right; exact E3 | exists (JsError msg); repeat split; assumption]].
  destruct H as [H|[H|[H|[e He]]]]; try discriminate.
  unfold performBackup_try. rewrite E1, E2, E3, He. run.
  exists e. repeat split.
Qed.

(** The same failure, through the catch block of [performBackup]. *)
Lemma performBackup_sync_throw (env : Env) (o : Outcomes) (id : string) (p : Params) (w : World) :
  truthy (S3_BUCKET_NAME env) = false \/ truthy (AWS_ACCESS_KEY_ID env) = false \/
  truthy (AWS_SECRET_ACCESS_KEY env) = false \/ (exists e, createClient_throws o = Some e) ->
  exists err pre,
    st_res (performBackup env o id p w) = Throw err /\
    st_log (performBackup env o id p w) =
      (pre ++ [EvSet id (failed_entry (err_message "Unknown error" err) (w_clock w))])%list /\
    ~ In EvAwait pre /\ ~ In EvExport pre.
Proof.
  intros H. destruct (try_sync_throw env o id p w H) as (err & Hr & Hl & Hw).
  destruct (catch_block_run o p id err w) as (Hcr & (pre & Hpre & Hcl) & _).
  exists err, pre. unfold performBackup.
  rewrite catch_res, catch_log, Hr, Hl, Hw. simpl.
  split; [exact Hcr|]. split; [exact Hcl|].
  destruct (catch_prefix_events pre (filename_of o p) Hpre) as (H1 & H2 & _). split; assumption.
Qed.

(** C4, amended: [startBackup] returns the id at once; when the handler
    answers, the entry is Pending if the pre-flight check and
    [createClient] pass, and already Failed if either fails (the job throws
    before its first [await], so its catch block runs in the handler's
    synchronous segment). *)
Theorem status_at_response (env : Env) (o : Outcomes) (p : Params) (w : World) :
  let id := make_backupId p (w_clock w) in
  let seen := replay (w_status w) (sync_segment (st_log (startBackup env o p w))) !! id in
  st_res (startBackup env o p w) = Ok id /\
  (truthy (S3_BUCKET_NAME env) = true -> truthy (AWS_ACCESS_KEY_ID env) = true ->
   truthy (AWS_SECRET_ACCESS_KEY env) = true -> createClient_throws o = None ->
   seen = Some (mk_entry Pending "Starting backup process..." (w_clock w))) /\
  (truthy (S3_BUCKET_NAME env) = false \/ truthy (AWS_ACCESS_KEY_ID env) = false \/
   truthy (AWS_SECRET_ACCESS_KEY env) = false \/ (exists e, createClient_throws o = Some e) ->
   exists e, seen = Some e /\ status e = Failed).
Proof.
  cbv zeta. set (id := make_backupId p (w_clock w)).
  destruct (startBackup_run env o p w) as (Hr & _ & Hl). cbv zeta in Hr, Hl. fold id in Hr, Hl.
  rewrite Hl, detached_log.
  split; [exact Hr | split].
  - intros H1 H2 H3 H4.
    destruct (try_first_await env o p id (pending_world p w) H1 H2 H3 H4) as (rest & Ht).
    unfold performBackup at 1. rewrite catch_log, Ht. simpl. apply lookup_insert_eq.
  - intros H.
    destruct (performBackup_sync_throw env o id p (pending_world p w) H)
      as (err & pre & Hpr & Hpl & Ha & _).
    rewrite Hpl, Hpr, app_comm_cons, sync_segment_app.
    + eexists. split; [rewrite app_comm_cons; apply replay_last | reflexivity].
    + intros [Hx|Hx]; [discriminate|].
      apply in_app_or in Hx as [Hx|[Hx|[]]]; [exact (Ha Hx) | discriminate].
Qed.

Lemma status_at_response_witness :
  truthy (S3_BUCKET_NAME env_nobucket) = false /\
  exists e, replay (w_status w_start)
              (sync_segment (st_log (startBackup env_nobucket o_empty_export p_acme w_start)))
              !! make_backupId p_acme (w_clock w_start) = Some e /\ status e = Failed.
Proof.
  split; [reflexivity|].
  apply (status_at_response env_nobucket o_empty_export p_acme w_start). left. reflexivity.
Defined.

(* ------------------------------------------------------------------ *)
(** ** Failures of the job *)

(** When the try block of the detached job throws, the job's final
    entry is Failed with the error's message, the archive is gone when its
    deletion succeeds, and the events after the try block neither export
    nor upload. *)
Lemma after_try_throw (env : Env) (o : Outcomes) (p : Params) (w : World) (err : jerr) :
  st_res (performBackup_try env o (make_backupId p (w_clock w)) p (pending_world p w)) = Throw err ->
  (exists t, w_status (st_world (startBackup env o p w)) !! make_backupId p (w_clock w)
               = Some (failed_entry (err_message "Unknown error" err) t)) /\
  (cleanup_result o = None ->
   w_files (st_world (startBackup env o p w)) !! filename_of o p = None) /\
  exists rest,
    st_log (startBackup env o p w) =
      EvSet (make_backupId p (w_clock w))
            (mk_entry Pending "Starting backup process..." (w_clock w))
      :: (st_log (performBackup_try env o (make_backupId p (w_clock w)) p (pending_world p w))
          ++ rest)%list /\
    ~ In EvExport rest /\ ~ In EvUpload rest.
Proof.
  intros Hfail. set (id := make_backupId p (w_clock w)) in *.
  destruct (startBackup_run env o p w) as (_ & Hw & Hl). cbv zeta in Hw, Hl. fold id in Hw, Hl.
  set (wt := st_world (performBackup_try env o id p (pending_world p w))).
  destruct (catch_block_run o p id err wt) as (Hcr & (pre & Hpre & Hcl) & Hcs & Hcf).
  assert (Hpr : st_res (performBackup env o id p (pending_world p w)) = Throw err).
  { unfold performBackup. rewrite catch_res, Hfail. exact Hcr. }
  destruct (detached_world env o p id (pending_world p w)) as (Hdf & Hds). cbv zeta in Hdf, Hds.
  rewrite Hpr in Hds.
  split; [|split].
  - rewrite Hw, Hds. eexists. apply lookup_insert_eq.
  - intros Hc. rewrite Hw, Hdf. unfold performBackup. rewrite catch_world, Hfail. exact (Hcf Hc).
  - rewrite Hl, detached_log, Hpr. unfold performBackup at 1. rewrite catch_log, Hfail. fold wt.
    rewrite Hcl. eexists. split; [rewrite <- app_assoc; reflexivity|].
    destruct (catch_prefix_events pre (filename_of o p) Hpre) as (_ & He & Hu).
    split; intros Hx; apply in_app_or in Hx as [Hx|Hx];
      try (apply in_app_or in Hx as [Hx|[Hx|[]]]; [auto | discriminate]);
      simpl in Hx; intuition discriminate.
Qed.

(** C5: with the bucket name, the access key id or the secret access key
    missing, the job ends Failed with one of the three configuration
    messages, and the export is never started. *)
Theorem missing_config_fails_without_export (env : Env) (o : Outcomes) (p : Params) (w : World)
    (Hcfg : truthy (S3_BUCKET_NAME env) = false \/ truthy (AWS_ACCESS_KEY_ID env) = false \/
            truthy (AWS_SECRET_ACCESS_KEY env) = false) :
  ~ In EvExport (st_log (startBackup env o p w)) /\
  exists msg t,
    In msg ["S3_BUCKET_NAME environment variable is not set";
            "AWS_ACCESS_KEY_ID environment variable is not set";
            "AWS_SECRET_ACCESS_KEY environment variable is not set"] /\
    w_status (st_world (startBackup env o p w)) !! make_backupId p (w_clock w)
      = Some (failed_entry msg t).
Proof.
  destruct (try_missing_config env o p (make_backupId p (w_clock w)) (pending_world p w) Hcfg)
    as (msg & Hin & Hr & Htl & _).
  destruct (after_try_throw env o p w (JsError msg) Hr) as ([t Hs] & _ & rest & Hl & He & _).
  split.
  - rewrite Hl, Htl. intros [Hx|Hx]; [discriminate | exact (He Hx)].
  - exists msg, t. split; [exact Hin | exact Hs].
Qed.

Lemma missing_config_fails_without_export_witness :
  (truthy (S3_BUCKET_NAME env_nobucket) = false \/ truthy (AWS_ACCESS_KEY_ID env_nobucket) = false \/
   truthy (AWS_SECRET_ACCESS_KEY env_nobucket) = false) /\
  ~ In EvExport (st_log (startBackup env_nobucket o_empty_export p_acme w_start)) /\
  exists msg t,
    In msg ["S3_BUCKET_NAME environment variable is not set";
            "AWS_ACCESS_KEY_ID environment variable is not set";
            "AWS_SECRET_ACCESS_KEY environment variable is not set"] /\
    w_status (st_world (startBackup env_nobucket o_empty_export p_acme w_start))
      !! make_backupId p_acme (w_clock w_start) = Some (failed_entry msg t).
Proof.
  split; [left; reflexivity|].
  apply (missing_config_fails_without_export env_nobucket o_empty_export p_acme w_start).
  left. reflexivity.
Defined.

(** C6: whatever stage of the try block throws, the job's final entry is
    Failed with that error's message, whatever the cleanup deletion does
    (an error of the cleanup is only logged); when the deletion succeeds,
    the archive is gone. *)
Theorem failure_keeps_original_error (env : Env) (o : Outcomes) (p : Params) (w : World)
    (err : jerr)
    (Hfail : st_res (performBackup_try env o (make_backupId p (w_clock w)) p (pending_world p w))
               = Throw err) :
  (exists t, w_status (st_world (startBackup env o p w)) !! make_backupId p (w_clock w)
               = Some (failed_entry (err_message "Unknown error" err) t)) /\
  (cleanup_result o = None ->
   w_files (st_world (startBackup env o p w)) !! filename_of o p = None).
Proof.
  destruct (after_try_throw env o p w err Hfail) as (Hs & Hf & _).
  split; assumption.
Qed.

Lemma failure_keeps_original_error_witness :
  st_res (performBackup_try env_ok o_upload_denied (make_backupId p_acme (w_clock w_start)) p_acme
            (pending_world p_acme w_start)) = Throw (JsError "Access Denied") /\
  (exists t, w_status (st_world (startBackup env_ok o_upload_denied p_acme w_start))
               !! make_backupId p_acme (w_clock w_start)
               = Some (failed_entry (err_message "Unknown error" (JsError "Access Denied")) t)) /\
  (cleanup_result o_upload_denied = None ->
   w_files (st_world (startBackup env_ok o_upload_denied p_acme w_start))
     !! filename_of o_upload_denied p_acme = None).
Proof.
  split; [vm_compute; reflexivity|].
  apply (failure_keeps_original_error env_ok o_upload_denied p_acme w_start).
  vm_compute. reflexivity.
Defined.

(** Past the pre-flight check, connectivity probe and export, an export
    that leaves no file makes the try block throw before the upload. *)
Lemma try_missing_file (env : Env) (o : Outcomes) (id : string) (p : Params) (w : World) :
  truthy (S3_BUCKET_NAME env) = true -> truthy (AWS_ACCESS_KEY_ID env) = true ->
  truthy (AWS_SECRET_ACCESS_KEY env) = true -> createClient_throws o = None ->
  fetch_result o = None -> export_result o = None -> export_file o = None ->
  w_files w !! filename_of o p = None ->
  st_res (performBackup_try env o id p w)
    = Throw (JsError ("Export file not found: " +:+ filename_of o p)) /\
  ~ In EvUpload (st_log (performBackup_try env o id p w)).
Proof.
  intros H1 H2 H3 H4 H5 H6 H7 H8.
  unfold performBackup_try, await_, fail_with, write_file, existsSync.
  rewrite H1, H2, H3, H4, H5, H6, H7. fold (filename_of o p). run.
  rewrite H8. cbn. run.
  split; [reflexivity | intuition discriminate].
Qed.

Lemma iter_progress_res (id : string) (l : list (N * N)) (w : World) :
  st_res (iter_ (on_progress id) l w) = Ok tt.
Proof.
  revert w. induction l as [|[loaded total] l IH]; intros w; [reflexivity|].
  cbn [iter_]. rewrite bind_res. unfold on_progress.
  destruct (negb (loaded =? 0)%N && negb (total =? 0)%N); run; apply IH.
Qed.

Lemma iter_progress_files (id : string) (l : list (N * N)) (w : World) :
  w_files (st_world (iter_ (on_progress id) l w)) = w_files w /\
  w_clock (st_world (iter_ (on_progress id) l w)) = w_clock w.
Proof.
  revert w. induction l as [|[loaded total] l IH]; intros w; [split; reflexivity|].
  cbn [iter_]. rewrite bind_world. unfold on_progress.
  destruct (negb (loaded =? 0)%N && negb (total =? 0)%N); run; rewrite (proj1 (IH _)), (proj2 (IH _));
    split; reflexivity.
Qed.

Lemma try_success (env : Env) (o : Outcomes) (id : string) (p : Params) (w : World)
    (n : N) (tag : option string) :
  truthy (S3_BUCKET_NAME env) = true -> truthy (AWS_ACCESS_KEY_ID env) = true ->
  truthy (AWS_SECRET_ACCESS_KEY env) = true -> createClient_throws o = None ->
  fetch_result o = None -> export_result o = None -> export_file o = Some n ->
  upload_result o = Ok tag -> unlink_result o = None ->
  let s := performBackup_try env o id p w in
  st_res s = Ok tt /\
  w_status (st_world s) !! id =
    Some {| status := Completed; message := "Backup completed successfully";
            progress := None; error := None; s3Location := Some (filename_of o p);
            etag := tag;
            startTime := w_clock w + fetch_delay o + export_delay o + upload_delay o |} /\
  w_files (st_world s) !! filename_of o p = None.
Proof.
  intros H1 H2 H3 H4 H5 H6 H7 H8 H9. cbv zeta.
  unfold performBackup_try, await_, fail_with, write_file, existsSync.
  rewrite H1, H2, H3, H4, H5, H6, H7, H8. fold (filename_of o p).
  split; [|split]; run;
    rewrite lookup_insert_eq, bool_decide_true by eauto; run;
    rewrite iter_progress_res; cbn; run; unfold unlinkSync;
    rewrite (proj1 (iter_progress_files _ _ _)); cbn; rewrite lookup_insert_eq, H9; run;
    rewrite ?(proj2 (iter_progress_files _ _ _)); cbn;
    solve [reflexivity | apply lookup_insert_eq | apply lookup_delete_eq].
Qed.

Lemma startBackup_success (env : Env) (o : Outcomes) (p : Params) (w : World)
    (n : N) (tag : option string) :
  truthy (S3_BUCKET_NAME env) = true -> truthy (AWS_ACCESS_KEY_ID env) = true ->
  truthy (AWS_SECRET_ACCESS_KEY env) = true -> createClient_throws o = None ->
  fetch_result o = None -> export_result o = None -> export_file o = Some n ->
  upload_result o = Ok tag -> unlink_result o = None ->
  let id := make_backupId p (w_clock w) in
  let s := startBackup env o p w in
  st_res s = Ok id /\
  w_status (st_world s) !! id =
    Some {| status := Completed; message := "Backup completed successfully";
            progress := None; error := None; s3Location := Some (filename_of o p);
            etag := tag;
            startTime := w_clock w + fetch_delay o + export_delay o + upload_delay o |} /\
  w_files (st_world s) !! filename_of o p = None.
Proof.
  intros H1 H2 H3 H4 H5 H6 H7 H8 H9. cbv zeta.
  destruct (startBackup_run env o p w) as (Hr & Hw & _). cbv zeta in Hr, Hw.
  destruct (try_success env o (make_backupId p (w_clock w)) p (pending_world p w) n tag
              H1 H2 H3 H4 H5 H6 H7 H8 H9) as (Ht & Hs & Hf).
  destruct (detached_world env o p (make_backupId p (w_clock w)) (pending_world p w))
    as (Dw & Ds).
  unfold performBackup in Dw, Ds. rewrite catch_res, Ht in Ds. rewrite catch_world, Ht in Dw, Ds.
  split; [exact Hr|]. rewrite Hw, Dw, Ds. split; [exact Hs | exact Hf].
Qed.

(** Past the pre-flight check, connectivity probe and export, an export
    that leaves a file (of any size, empty included) lets the try block
    start the upload. *)
Lemma try_reaches_upload (env : Env) (o : Outcomes) (id : string) (p : Params) (w : World)
    (n : N) :
  truthy (S3_BUCKET_NAME env) = true -> truthy (AWS_ACCESS_KEY_ID env) = true ->
  truthy (AWS_SECRET_ACCESS_KEY env) = true -> createClient_throws o = None ->
  fetch_result o = None -> export_result o = None -> export_file o = Some n ->
  In EvUpload (st_log (performBackup_try env o id p w)).
Proof.
  intros H1 H2 H3 H4 H5 H6 H7.
  unfold performBackup_try, await_, fail_with, write_file, existsSync.
  rewrite H1, H2, H3, H4, H5, H6, H7. fold (filename_of o p). run.
  rewrite lookup_insert_eq, bool_decide_true by eauto. run.
  tauto.
Qed.

Lemma startBackup_log_has_try (env : Env) (o : Outcomes) (p : Params) (w : World) (ev : event) :
  In ev (st_log (performBackup_try env o (make_backupId p (w_clock w)) p (pending_world p w))) ->
  In ev (st_log (startBackup env o p w)).
Proof.
  intros Hin. destruct (startBackup_run env o p w) as (_ & _ & Hl). cbv zeta in Hl.
  rewrite Hl, detached_log. right. apply in_or_app. left.
  unfold performBackup. rewrite catch_log. apply in_or_app. left. exact Hin.
Qed.

(** C7, amended: past the pre-flight check, connectivity probe and
    export, only the existence of the archive is checked.  When the export
    leaves a file, of any size (an empty one included), the upload is
    started, and the job completes when the upload and the deletion
    succeed.  When it leaves none (and none was there before), the upload
    is not started and the job ends Failed with the message
    ["Export file not found: " + filename]. *)
Theorem export_checks_existence_only (env : Env) (o : Outcomes) (p : Params) (w : World)
    (H1 : truthy (S3_BUCKET_NAME env) = true) (H2 : truthy (AWS_ACCESS_KEY_ID env) = true)
    (H3 : truthy (AWS_SECRET_ACCESS_KEY env) = true) (H4 : createClient_throws o = None)
    (H5 : fetch_result o = None) (H6 : export_result o = None) :
  (forall n, export_file o = Some n ->
     In EvUpload (st_log (startBackup env o p w)) /\
     (forall tag, upload_result o = Ok tag -> unlink_result o = None ->
        option_map status (w_status (st_world (startBackup env o p w))
                             !! make_backupId p (w_clock w)) = Some Completed)) /\
  (export_file o = None -> w_files w !! filename_of o p = None ->
     ~ In EvUpload (st_log (startBackup env o p w)) /\
     exists t, w_status (st_world (startBackup env o p w)) !! make_backupId p (w_clock w)
                 = Some (failed_entry ("Export file not found: " +:+ filename_of o p) t)).
Proof.
  split.
  - intros n H7. split.
    + apply startBackup_log_has_try.
      exact (try_reaches_upload env o _ p _ n H1 H2 H3 H4 H5 H6 H7).
    + intros tag H8 H9.
      destruct (startBackup_success env o p w n tag H1 H2 H3 H4 H5 H6 H7 H8 H9)
        as (_ & Hs & _).
      rewrite Hs. reflexivity.
  - intros H7 H8.
    destruct (try_missing_file env o (make_backupId p (w_clock w)) p (pending_world p w)
                H1 H2 H3 H4 H5 H6 H7 H8) as (Hr & Hu).
    destruct (after_try_throw env o p w _ Hr) as ([t Hs] & _ & rest & Hl & _ & Hu').
    split.
    + rewrite Hl. intros [Hx|Hx]; [discriminate|].
      apply in_app_or in Hx as [Hx|Hx]; [exact (Hu Hx) | exact (Hu' Hx)].
    + exists t. exact Hs.
Qed.

Lemma export_checks_existence_only_witness :
  export_file o_empty_export = Some 0%N /\
  In EvUpload (st_log (startBackup env_ok o_empty_export p_acme w_start)) /\
  option_map status (w_status (st_world (startBackup env_ok o_empty_export p_acme w_start))
                       !! make_backupId p_acme (w_clock w_start)) = Some Completed /\
  exists t, w_status (st_world (startBackup env_ok o_no_file p_acme w_start))
              !! make_backupId p_acme (w_clock w_start)
              = Some (failed_entry ("Export file not found: " +:+ filename_of o_no_file p_acme) t).
Proof.
  destruct (export_checks_existence_only env_ok o_empty_export p_acme w_start
              eq_refl eq_refl eq_refl eq_refl eq_refl eq_refl) as [Hs _].
  destruct (Hs 0%N eq_refl) as [Hu Hc].
  destruct (export_checks_existence_only env_ok o_no_file p_acme w_start
              eq_refl eq_refl eq_refl eq_refl eq_refl eq_refl) as [_ Hm].
  split; [reflexivity|]. split; [exact Hu|]. split; [exact (Hc _ eq_refl eq_refl)|].
  apply Hm; [reflexivity | vm_compute; reflexivity].
Defined.

(* ------------------------------------------------------------------ *)
(** ** Job ids *)

Lemma string_app_cancel_l (a b c : string) : a +:+ b = a +:+ c -> b = c.
Proof. induction a as [|x a IH]; simpl; [tauto|]. intros H. injection H. exact IH. Qed.

Lemma num_to_string_inj (n m : N) : num_to_string n = num_to_string m -> n = m.
Proof.
  unfold num_to_string. intros H.
  apply (f_equal NilEmpty.uint_of_string) in H. rewrite !NilEmpty.usu in H.
  injection H as H. rewrite <- (DecimalN.Unsigned.of_to n), <- (DecimalN.Unsigned.of_to m), H.
  reflexivity.
Qed.

Lemma make_backupId_params (p1 p2 : Params) (t : N) :
  projectId p1 = projectId p2 -> dataset p1 = dataset p2 ->
  make_backupId p1 t = make_backupId p2 t.
Proof. intros Hp Hd. unfold make_backupId. rewrite Hp, Hd. reflexivity. Qed.

(** C8, amended: the id is [`${projectId}-${dataset}-${Date.now()}`].
    For two invocations with the same project and dataset (whatever their
    token, API version or project name), the ids are equal exactly when
    they run in the same millisecond; then the second invocation's first
    event is its Pending write to that id, which replaces whatever entry
    the status map held for it (the first job's). *)
Theorem backupId_same_iff_same_ms (env1 env2 : Env) (o1 o2 : Outcomes) (p1 p2 : Params)
    (w1 w2 : World) :
  projectId p1 = projectId p2 -> dataset p1 = dataset p2 ->
  st_res (startBackup env1 o1 p1 w1) = Ok (make_backupId p1 (w_clock w1)) /\
  (st_res (startBackup env1 o1 p1 w1) = st_res (startBackup env2 o2 p2 w2) <->
   w_clock w1 = w_clock w2) /\
  (w_clock w1 = w_clock w2 ->
   hd_error (st_log (startBackup env2 o2 p2 w2))
     = Some (EvSet (make_backupId p1 (w_clock w1))
               (mk_entry Pending "Starting backup process..." (w_clock w2))) /\
   w_status (pending_world p2 w2)
     = <[make_backupId p1 (w_clock w1) :=
          mk_entry Pending "Starting backup process..." (w_clock w2)]> (w_status w2)).
Proof.
  intros Hp Hd.
  destruct (startBackup_run env1 o1 p1 w1) as (Hr1 & _).
  destruct (startBackup_run env2 o2 p2 w2) as (Hr2 & _ & Hl2).
  cbv zeta in Hr1, Hr2, Hl2. rewrite Hr1, Hr2.
  split; [reflexivity|]. split; [split|].
  - intros H. injection H as H. unfold make_backupId in H. rewrite Hp, Hd in H.
    apply string_app_cancel_l, (string_app_cancel_l "-"), string_app_cancel_l,
      (string_app_cancel_l "-"), num_to_string_inj in H.
    exact H.
  - intros ->. rewrite (make_backupId_params p1 p2 _ Hp Hd). reflexivity.
  - intros Ht. rewrite Ht, (make_backupId_params p1 p2 _ Hp Hd), Hl2.
    split; reflexivity.
Qed.

Lemma backupId_same_iff_same_ms_witness :
  st_res (startBackup env_ok o_empty_export p_acme w_start)
    = st_res (startBackup env_nobucket o_no_file p_acme_other w_start) /\
  w_status (pending_world p_acme_other w_start)
    = <[acme_id := mk_entry Pending "Starting backup process..." 1000]> (w_status w_start).
Proof.
  destruct (backupId_same_iff_same_ms env_ok env_nobucket o_empty_export o_no_file
              p_acme p_acme_other w_start w_start eq_refl eq_refl) as (_ & Hiff & Hcol).
  split; [apply Hiff; reflexivity|].
  destruct (Hcol eq_refl) as [_ H]. exact H.
Defined.

(* ------------------------------------------------------------------ *)
(** ** The listing: splitting, parsing, sorting *)

Lemma split_nonempty (c : ascii) (s : string) : split c s <> [].
Proof.
  destruct s as [|a s]; simpl; [discriminate|].
  destruct (Ascii.eqb a c); [discriminate|]. destruct (split c s); discriminate.
Qed.

Lemma split_app_sep (c : ascii) (a b : string) :
  split c (a +:+ String c EmptyString +:+ b) = (split c a ++ split c b)%list.
Proof.
  induction a as [|x a IH]; simpl.
  - rewrite Ascii.eqb_refl. reflexivity.
  - rewrite IH. destruct (Ascii.eqb x c); [reflexivity|].
    pose proof (split_nonempty c a) as Hne.
    destruct (split c a) as [|h t]; [contradiction | reflexivity].
Qed.

Lemma split_no_sep (c : ascii) (s : string) :
  ~ In c (list_ascii_of_string s) -> split c s = [s].
Proof.
  induction s as [|x s IH]; intros H; [reflexivity|]. simpl.
  destruct (Ascii.eqb_spec x c) as [->|Hne]; [exfalso; apply H; left; reflexivity|].
  rewrite IH; [reflexivity|]. intros Hin. apply H. right. exact Hin.
Qed.

Lemma join_split (c : ascii) (s : string) : join (String c EmptyString) (split c s) = s.
Proof.
  unfold join. induction s as [|x s IH]; [reflexivity|]. simpl.
  pose proof (split_nonempty c s) as Hne.
  destruct (Ascii.eqb_spec x c) as [->|Hxc].
  - destruct (split c s) as [|h t]; [contradiction|]. simpl in *. rewrite IH. reflexivity.
  - destruct (split c s) as [|h t]; [contradiction|].
    destruct t as [|h' t]; simpl in *; rewrite <- IH; reflexivity.
Qed.

Lemma list_ascii_app (a b : string) :
  list_ascii_of_string (a +:+ b) = (list_ascii_of_string a ++ list_ascii_of_string b)%list.
Proof. induction a as [|x a IH]; simpl; [reflexivity | rewrite IH; reflexivity]. Qed.

Lemma replace_suffix (id : string) :
  ~ In "."%char (list_ascii_of_string id) -> replace ".tar.gz" "" (id +:+ ".tar.gz") = id.
Proof.
  induction id as [|x id IH]; intros H; [reflexivity|].
  assert (Hx : x <> "."%char) by (intros ->; apply H; left; reflexivity).
  change (String x id +:+ ".tar.gz") with (String x (id +:+ ".tar.gz")).
  transitivity (if String.prefix ".tar.gz" (String x (id +:+ ".tar.gz"))
                then "" +:+ String.substring 7 (String.length (String x (id +:+ ".tar.gz")) - 7)
                                             (String x (id +:+ ".tar.gz"))
                else String x (replace ".tar.gz" "" (id +:+ ".tar.gz"))); [reflexivity|].
  replace (String.prefix ".tar.gz" (String x (id +:+ ".tar.gz"))) with false.
  - rewrite IH; [reflexivity|]. intros Hin. apply H. right. exact Hin.
  - cbn [String.prefix]. destruct (Ascii.ascii_dec "." x); [congruence | reflexivity].
Qed.

(** the [.map] callback of the listing inverts the archive naming
    [{projectName}-{date}-{dataset}-{projectId}.tar.gz] for every key whose
    date, dataset and project id contain no hyphen (the project name may
    contain hyphens) and whose project id contains no dot: it gives back
    the four parts, the key, the size (0 when absent) and the
    modification time. *)
Theorem parse_object_inverts_naming (name date ds pid : string) (size : option N)
    (lm : option N) :
  ~ In "-"%char (list_ascii_of_string date) -> ~ In "-"%char (list_ascii_of_string ds) ->
  ~ In "-"%char (list_ascii_of_string pid) -> ~ In "."%char (list_ascii_of_string pid) ->
  let key := name +:+ "-" +:+ date +:+ "-" +:+ ds +:+ "-" +:+ pid +:+ ".tar.gz" in
  parse_object {| Key := Some key; Size := size; LastModified := lm |} =
    {| bf_key := key; bf_projectName := name; bf_date := date; bf_dataset := ds;
       bf_projectId := pid; bf_size := match size with Some s => s | None => 0%N end;
       bf_lastModified := lm |}.
Proof.
  intros Hd Hs Hp Hdot. cbv zeta.
  assert (Hk : split "-" (name +:+ "-" +:+ date +:+ "-" +:+ ds +:+ "-" +:+ pid +:+ ".tar.gz")
               = (split "-" name ++ [date; ds; pid +:+ ".tar.gz"])%list).
  {     rewrite split_app_sep, split_app_sep, split_app_sep.
    rewrite (split_no_sep _ date Hd), (split_no_sep _ ds Hs), (split_no_sep _ (pid +:+ ".tar.gz")).
    - reflexivity.
    - rewrite list_ascii_app. intros Hin. apply in_app_or in Hin as [Hin|Hin];
        [exact (Hp Hin) | simpl in Hin; intuition discriminate]. }
  unfold parse_object. cbn [Key Size LastModified]. rewrite Hk.
  pose proof (split_nonempty "-" name) as Hne.
  rewrite length_app. cbn [length].
  replace (length (split "-" name) + 3 - 3)%nat with (length (split "-" name)) by lia.
  destruct (4 <=? length (split "-" name) + 3)%nat eqn:E;
    [| apply Nat.leb_gt in E; destruct (split "-" name); [contradiction | simpl in E; lia]].
  rewrite skipn_app, firstn_app, Nat.sub_diag, skipn_all, firstn_all. simpl.
  rewrite app_nil_r, (join_split "-" name), replace_suffix by exact Hdot. reflexivity.
Qed.

Lemma parse_object_inverts_naming_witness :
  parse_object {| Key := Some "my-site-20250115-production-abc123.tar.gz";
                  Size := Some 42%N; LastModified := None |} =
    {| bf_key := "my-site-20250115-production-abc123.tar.gz"; bf_projectName := "my-site";
       bf_date := "20250115"; bf_dataset := "production"; bf_projectId := "abc123";
       bf_size := 42; bf_lastModified := None |}.
Proof.
  apply (parse_object_inverts_naming "my-site" "20250115" "production" "abc123");
    cbv; intuition discriminate.
Defined.

Lemma insert_by_perm {A} (cmp : A -> A -> comparison) (x : A) (l : list A) :
  Permutation (insert_by cmp x l) (x :: l).
Proof.
  induction l as [|y l IH]; simpl; [reflexivity|].
  destruct (cmp y x); try reflexivity.
  rewrite IH. apply perm_swap.
Qed.

Lemma sort_by_perm {A} (cmp : A -> A -> comparison) (l : list A) :
  Permutation (sort_by cmp l) l.
Proof.
  induction l as [|x l IH]; simpl; [reflexivity|].
  rewrite insert_by_perm, IH. reflexivity.
Qed.

(** the listing neither drops nor duplicates an archive: its [backups]
    are a reordering of the parsed objects whose key is non-empty and ends
    in [.tar.gz], [totalCount] is their number, and every listed key ends
    in [.tar.gz]. *)
Theorem list_is_permutation_of_archives (env : Env) (contents : list S3Object)
    (files : list BackupFile) (n : nat) (bucket region : string) :
  list_handler env (ListReturns (Some contents)) = ListOk files n bucket region ->
  Permutation files (List.map parse_object (List.filter is_backup_object contents)) /\
  n = length (List.filter is_backup_object contents) /\
  Forall (fun f => endsWith (bf_key f) ".tar.gz" = true) files.
Proof.
  unfold list_handler. destruct (truthy (S3_BUCKET_NAME env)); simpl; [|discriminate].
  intros H. injection H as <- <- _ _. unfold backup_files.
  split; [apply sort_by_perm|]. split.
  - rewrite (Permutation_length (sort_by_perm _ _)). apply length_map.
  - eapply Permutation_Forall; [symmetry; apply sort_by_perm|].
    apply List.Forall_forall. intros f Hf. apply in_map_iff in Hf as (obj & <- & Hin).
    apply filter_In in Hin as (_ & Hb). unfold is_backup_object, parse_object in *.
    destruct (Key obj) as [k|]; [|discriminate].
    apply andb_prop in Hb as (_ & Hb).
    destruct (4 <=? length (split "-" k))%nat; exact Hb.
Qed.

Lemma list_is_permutation_of_archives_witness :
  list_handler env_ok (ListReturns (Some [obj_jan; obj_short; obj_feb])) =
    ListOk (backup_files [obj_jan; obj_short; obj_feb]) 3 "backups" "ca-central-1" /\
  Permutation (backup_files [obj_jan; obj_short; obj_feb])
    (List.map parse_object (List.filter is_backup_object [obj_jan; obj_short; obj_feb])) /\
  3%nat = length (List.filter is_backup_object [obj_jan; obj_short; obj_feb]) /\
  Forall (fun f => endsWith (bf_key f) ".tar.gz" = true) (backup_files [obj_jan; obj_short; obj_feb]).
Proof.
  split; [vm_compute; reflexivity|].
  apply (list_is_permutation_of_archives env_ok _ _ _ "backups" "ca-central-1").
  vm_compute. reflexivity.
Defined.

Lemma insert_by_sorted {A} (cmp : A -> A -> comparison) (R : A -> A -> Prop) (P : A -> Prop)
    (Hlt : forall x y, P x -> P y -> cmp y x = Lt -> R y x)
    (Hge : forall x y, P x -> P y -> cmp y x <> Lt -> R x y)
    (x : A) (l : list A) :
  P x -> Forall P l -> Sorted R l -> Sorted R (insert_by cmp x l).
Proof.
  intros Hx. induction l as [|y l IH]; intros HP HS; simpl; [constructor; constructor|].
  inversion HP as [|? ? Hy HP']; subst. inversion HS as [|? ? HS' Hhd]; subst.
  destruct (cmp y x) eqn:E.
  - constructor; [exact HS|]. constructor. apply Hge; auto; congruence.
  - constructor; [exact (IH HP' HS')|].
    destruct l as [|z l]; simpl; [constructor; apply Hlt; auto|].
    destruct (cmp z x); constructor;
      solve [apply Hlt; auto | inversion Hhd; assumption].
  - constructor; [exact HS|]. constructor. apply Hge; auto; congruence.
Qed.

Lemma sort_by_sorted {A} (cmp : A -> A -> comparison) (R : A -> A -> Prop) (P : A -> Prop)
    (Hlt : forall x y, P x -> P y -> cmp y x = Lt -> R y x)
    (Hge : forall x y, P x -> P y -> cmp y x <> Lt -> R x y)
    (l : list A) :
  Forall P l -> Sorted R (sort_by cmp l).
Proof.
  induction l as [|x l IH]; intros HP; simpl; [constructor|].
  inversion HP; subst. apply (insert_by_sorted cmp R P); auto.
  eapply Permutation_Forall; [symmetry; apply sort_by_perm | assumption].
Qed.

Lemma truthy_nonempty (s : string) : s <> "" -> truthy (Some s) = true.
Proof. destruct s; [contradiction | reflexivity]. Qed.

Lemma ascii_digits_nonempty (s : string) : ascii_digits s = true -> s <> "".
Proof. intros H ->. discriminate. Qed.

(** when the date segment of every archive in the bucket is a non-empty
    string of ASCII digits (where the collation [localeCompare] uses and
    code-point order agree), the listing is ordered by that segment,
    greatest first: no entry's date is smaller than the next entry's. *)
Theorem list_sorted_by_date_segment (env : Env) (contents : list S3Object)
    (files : list BackupFile) (n : nat) (bucket region : string) :
  list_handler env (ListReturns (Some contents)) = ListOk files n bucket region ->
  Forall (fun obj => is_backup_object obj = true -> ascii_digits (bf_date (parse_object obj)) = true)
    contents ->
  Sorted (fun a b => String.compare (bf_date a) (bf_date b) <> Lt) files.
Proof.
  unfold list_handler. destruct (truthy (S3_BUCKET_NAME env)); simpl; [|discriminate].
  intros H Hd. injection H as <- _ _ _. unfold backup_files.
  apply (sort_by_sorted _ _ (fun f => bf_date f <> "")).
  - intros x y Hx Hy. unfold by_date_desc.
    rewrite (truthy_nonempty _ Hy), (truthy_nonempty _ Hx). cbn [andb]. unfold localeCompare.
    intros Hc. rewrite String.compare_antisym, Hc. discriminate.
  - intros x y Hx Hy. unfold by_date_desc.
    rewrite (truthy_nonempty _ Hy), (truthy_nonempty _ Hx). cbn [andb]. exact id.
  - apply List.Forall_forall. intros f Hf. apply in_map_iff in Hf as (obj & <- & Hin).
    apply filter_In in Hin as (Hin & Hb). rewrite List.Forall_forall in Hd.
    exact (ascii_digits_nonempty _ (Hd obj Hin Hb)).
Qed.

Lemma list_sorted_by_date_segment_witness :
  list_handler env_ok (ListReturns (Some [obj_jan; obj_feb])) =
    ListOk (backup_files [obj_jan; obj_feb]) 2 "backups" "ca-central-1" /\
  Forall (fun obj => is_backup_object obj = true -> ascii_digits (bf_date (parse_object obj)) = true)
    [obj_jan; obj_feb] /\
  Sorted (fun a b => String.compare (bf_date a) (bf_date b) <> Lt) (backup_files [obj_jan; obj_feb]).
Proof.
  split; [vm_compute; reflexivity|].
  assert (Hd : Forall (fun obj => is_backup_object obj = true
                                  -> ascii_digits (bf_date (parse_object obj)) = true)
                 [obj_jan; obj_feb])
    by (repeat constructor; vm_compute; reflexivity).
  split; [exact Hd|].
  apply (list_sorted_by_date_segment env_ok [obj_jan; obj_feb] _ 2 "backups" "ca-central-1");
    [vm_compute; reflexivity | exact Hd].
Defined.

(* ------------------------------------------------------------------ *)
(** ** The download route: the file name it offers *)

Lemma split_js_not_nil (c : N) (s : jsstring) : split_js c s <> [].
Proof.
  destruct s as [|a s]; simpl; [discriminate|].
  destruct (a =? c)%N; [discriminate|]. destruct (split_js c s); discriminate.
Qed.

Lemma split_js_no_sep (c : N) (s : jsstring) : ~ In c s -> split_js c s = [s].
Proof.
  induction s as [|a s IH]; intros Hn; [reflexivity|]. simpl.
  destruct (N.eqb_spec a c) as [->|Hne]; [exfalso; apply Hn; left; reflexivity|].
  rewrite IH; [reflexivity|]. intros Hin. apply Hn. right. exact Hin.
Qed.

Lemma split_js_elems (c : N) (s : jsstring) (x : jsstring) :
  In x (split_js c s) -> ~ In c x.
Proof.
  revert x. induction s as [|a s IH]; intros x Hx; simpl in Hx.
  - destruct Hx as [<-|[]]. intros [].
  - destruct (N.eqb_spec a c) as [->|Hne].
    + destruct Hx as [<-|Hx]; [intros []|exact (IH x Hx)].
    + destruct (split_js c s) as [|h t] eqn:E; [exfalso; exact (split_js_not_nil c s E)|].
      destruct Hx as [<-|Hx].
      * intros [Ha|Hh]; [exact (Hne Ha)|]. apply (IH h); [left; reflexivity|exact Hh].
      * apply IH. right. exact Hx.
Qed.

Lemma last_In_nonempty {A} (l : list A) (d : A) : l <> [] -> In (List.last l d) l.
Proof.
  induction l as [|a l IH]; intros Hl; [congruence|].
  destruct l as [|b l]; [left; reflexivity|].
  right. apply IH. discriminate.
Qed.

Lemma last_segment_no_slash (key : jsstring) : ~ In 47%N (last_segment key).
Proof.
  apply (split_js_elems 47 key). apply last_In_nonempty, split_js_not_nil.
Qed.

Lemma content_disposition_ok (key : jsstring) :
  forallb header_char_ok (content_disposition key)
    = forallb header_char_ok (last_segment key).
Proof.
  unfold content_disposition. rewrite !forallb_app.
  replace (forallb header_char_ok (js "attachment; filename=")) with true
    by reflexivity.
  simpl. rewrite andb_true_r. reflexivity.
Qed.

(** X5: when storage returns a body, the handler offers the part of the
    key after its last '/' as the file name (the whole key when it has no
    '/'; never a name containing '/').  It streams the body with the
    gzip content type when every code unit of that name is one a header
    value may carry, and answers 500 with Node's [ERR_INVALID_CHAR]
    message otherwise. *)
Theorem download_offers_last_segment (env : Env) (key : jsstring)
    (get : jsstring -> GetOutcome) (body : string) (len : option N) :
  truthy (S3_BUCKET_NAME env) = true ->
  get key = GetReturns (Some body) len ->
  ~ In 47%N (last_segment key) /\
  (~ In 47%N key -> last_segment key = key) /\
  download_handler env key get =
    (if forallb header_char_ok (last_segment key)
     then DlStream "application/gzip"
            (js "attachment; filename=" ++ [34%N] ++ last_segment key ++ [34%N])%list
            (match len with
             | Some n => if (n =? 0)%N then None else Some (num_to_string n)
             | None => None
             end)
            body
     else DlError 500 invalid_header_msg, [key]).
Proof.
  intros Hb Hg. split; [apply last_segment_no_slash|]. split.
  - intros Hn. unfold last_segment. rewrite (split_js_no_sep 47 key Hn). reflexivity.
  - unfold download_handler. rewrite Hb, Hg. cbn [negb].
    rewrite content_disposition_ok.
    destruct (forallb header_char_ok (last_segment key)); reflexivity.
Qed.

Lemma download_offers_last_segment_witness :
  download_handler env_ok (js "backups/acme.tar.gz") get_archive
    = (DlStream "application/gzip" (js "attachment; filename=" ++ [34%N]
         ++ js "acme.tar.gz" ++ [34%N])%list (Some "7") "<gzip bytes>",
       [js "backups/acme.tar.gz"]) /\
  download_handler env_ok (js "backups/" ++ [233%N; 8364%N])%list get_archive
    = (DlError 500 invalid_header_msg, [(js "backups/" ++ [233%N; 8364%N])%list]).
Proof.
  split.
  - destruct (download_offers_last_segment env_ok (js "backups/acme.tar.gz")
                get_archive "<gzip bytes>" (Some 7%N) eq_refl eq_refl) as [_ [_ ->]].
    vm_compute. reflexivity.
  - destruct (download_offers_last_segment env_ok (js "backups/" ++ [233%N; 8364%N])%list
                get_archive "<gzip bytes>" (Some 7%N) eq_refl eq_refl) as [_ [_ ->]].
    vm_compute. reflexivity.
Defined.

(* ------------------------------------------------------------------ *)
(** ** What one job touches *)

Lemma replay_app (m : gmap string Entry) (l1 l2 : list event) :
  replay m (l1 ++ l2)%list = replay (replay m l1) l2.
Proof. revert m. induction l1 as [|[] l1 IH]; intros m; simpl; auto. Qed.

Lemma replay_other (m : gmap string Entry) (l : list event) (id id' : string) :
  (forall id'' e, In (EvSet id'' e) l -> id'' = id) -> id' <> id ->
  replay m l !! id' = m !! id'.
Proof.
  revert m. induction l as [|ev l IH]; intros m Hw Hne; [reflexivity|].
  assert (Hw' : forall id'' e, In (EvSet id'' e) l -> id'' = id)
    by (intros ? ? ?; eapply Hw; right; eassumption).
  destruct ev as [id0 e0| | | | |]; simpl; rewrite ?IH by assumption; try reflexivity.
  assert (id0 = id) as -> by (eapply Hw; left; reflexivity).
  apply lookup_insert_ne. congruence.
Qed.

Lemma replay_keeps (m : gmap string Entry) (l : list event) (id : string) :
  is_Some (m !! id) -> is_Some (replay m l !! id).
Proof.
  revert m. induction l as [|[] l IH]; intros m H; simpl; auto.
  apply IH. destruct (decide (id0 = id)) as [->|Hne];
    [rewrite lookup_insert_eq; eauto | rewrite lookup_insert_ne; auto].
Qed.

Section Confined.
Context {A B : Type} (id path : string).

Lemma confined_ret (a : A) : confined id path (mret a : M A).
Proof. intros w. cbn. split; [reflexivity | split; [intros ? ? [] | reflexivity]]. Qed.

Lemma confined_throw (e : jerr) : confined id path (mthrow e : M A).
Proof. intros w. cbn. split; [reflexivity | split; [intros ? ? [] | reflexivity]]. Qed.

Lemma confined_bind (m : M A) (k : A -> M B) :
  confined id path m -> (forall a, confined id path (k a)) -> confined id path (m ≫= k).
Proof.
  intros Hm Hk w. cbv zeta. rewrite bind_log, bind_world.
  destruct (Hm w) as (Hs1 & Hw1 & Hf1).
  destruct (st_res (m w)) as [a|e].
  - destruct (Hk a (st_world (m w))) as (Hs2 & Hw2 & Hf2).
    split; [rewrite Hs2, Hs1, replay_app; reflexivity|]. split.
    + intros id' e' Hin. apply in_app_or in Hin as [Hin|Hin]; eauto.
    + intros path' Hp. rewrite Hf2, Hf1 by exact Hp. reflexivity.
  - rewrite app_nil_r. auto.
Qed.

Lemma confined_catch (m : M A) (h : jerr -> M A) :
  confined id path m -> (forall e, confined id path (h e)) -> confined id path (catch m h).
Proof.
  intros Hm Hh w. cbv zeta. rewrite catch_log, catch_world.
  destruct (Hm w) as (Hs1 & Hw1 & Hf1).
  destruct (st_res (m w)) as [a|e].
  - rewrite app_nil_r. auto.
  - destruct (Hh e (st_world (m w))) as (Hs2 & Hw2 & Hf2).
    split; [rewrite Hs2, Hs1, replay_app; reflexivity|]. split.
    + intros id' e' Hin. apply in_app_or in Hin as [Hin|Hin]; eauto.
    + intros path' Hp. rewrite Hf2, Hf1 by exact Hp. reflexivity.
Qed.

Lemma confined_attempt (m : M A) : confined id path m -> confined id path (attempt m).
Proof. intros Hm w. exact (Hm w). Qed.

End Confined.

Section ConfinedPrims.
Context (id path : string).

Lemma confined_emit (ev : event) :
  (forall id' e, ev <> EvSet id' e) -> confined id path (emit ev).
Proof.
  intros H w. cbn. destruct ev; try (exfalso; eapply H; reflexivity).
  all: split; [reflexivity | split; [intros ? ? [Heq|[]]; discriminate | reflexivity]].
Qed.

Lemma confined_now : confined id path now.
Proof. intros w. cbn. split; [reflexivity | split; [intros ? ? [] | reflexivity]]. Qed.

Lemma confined_get (id0 : string) : confined id path (get_status id0).
Proof. intros w. cbn. split; [reflexivity | split; [intros ? ? [] | reflexivity]]. Qed.

Lemma confined_set (e : Entry) : confined id path (set_status id e).
Proof.
  intros w. cbn. split; [reflexivity | split; [|reflexivity]].
  intros ? ? [Heq|[]]. congruence.
Qed.

Lemma confined_existsSync (path0 : string) : confined id path (existsSync path0).
Proof. intros w. cbn. split; [reflexivity | split; [intros ? ? [] | reflexivity]]. Qed.

Lemma confined_unlinkSync (f : option jerr) : confined id path (unlinkSync path f).
Proof.
  intros w. unfold unlinkSync.
  destruct (w_files w !! path), f; cbn;
    (split; [reflexivity | split; [intros ? ? Hin; simpl in Hin; intuition discriminate | ]]);
    try reflexivity.
  intros path' Hp. apply lookup_delete_ne. congruence.
Qed.

Lemma confined_write_file (size : option N) : confined id path (write_file path size).
Proof.
  intros w. unfold write_file. destruct size; cbn;
    (split; [reflexivity | split; [intros ? ? [] | ]]); [|reflexivity].
  intros path' Hp. apply lookup_insert_ne. congruence.
Qed.

Lemma confined_await {A} (d : N) (during : M unit) (r : res A) :
  confined id path during -> confined id path (await_ d during r).
Proof.
  intros Hd. unfold await_.
  apply confined_bind; [apply confined_emit; discriminate | intros _].
  apply confined_bind;
    [intros w; cbn; split; [reflexivity | split; [intros ? ? [] | reflexivity]] | intros _].
  apply confined_bind; [exact Hd | intros _].
  destruct r; [apply confined_ret | apply confined_throw].
Qed.

Lemma confined_iter {A} (f : A -> M unit) (l : list A) :
  (forall x, confined id path (f x)) -> confined id path (iter_ f l).
Proof.
  intros Hf. induction l as [|x l IH]; simpl.
  - apply confined_ret.
  - apply confined_bind; [apply Hf | intros _; exact IH].
Qed.

Lemma confined_on_progress (ev : N * N) : confined id path (on_progress id ev).
Proof.
  destruct ev as [loaded total]. unfold on_progress.
  destruct (negb (loaded =? 0)%N && negb (total =? 0)%N); [|apply confined_ret].
  apply confined_bind; [apply confined_get | intros cur]. apply confined_set.
Qed.

End ConfinedPrims.

(** [confined] only looks at the world and the log, so [apply] could
    unify [attempt m] with any computation: each rule is chosen by the
    head of the computation. *)
Ltac confined_tac :=
  repeat match goal with
    | |- confined _ _ (mret _) => apply confined_ret
    | |- confined _ _ (mthrow _) => apply confined_throw
    | |- confined _ _ now => apply confined_now
    | |- confined _ _ (get_status _) => apply confined_get
    | |- confined _ _ (existsSync _) => apply confined_existsSync
    | |- confined _ _ (unlinkSync _ _) => apply confined_unlinkSync
    | |- confined _ _ (write_file _ _) => apply confined_write_file
    | |- confined _ _ (on_progress _ _) => apply confined_on_progress
    | |- confined _ _ (set_status _ _) => apply confined_set
    | |- confined _ _ (emit _) => apply confined_emit; discriminate
    | |- confined _ _ (if ?b then _ else _) => destruct b
    | |- confined _ _ (match ?x with _ => _ end) => destruct x
    | |- confined _ _ (_ ≫= _) => apply confined_bind; [| intros ?]
    | |- confined _ _ (catch _ _) => apply confined_catch; [| intros ?]
    | |- confined _ _ (attempt _) => apply confined_attempt
    | |- confined _ _ (await_ _ _ _) => apply confined_await
    | |- confined _ _ (iter_ _ _) => apply confined_iter; intros ?
    end.

Lemma performBackup_detached_confined (env : Env) (o : Outcomes) (id : string) (p : Params) :
  confined id (filename_of o p) (performBackup_detached env o id p).
Proof.
  unfold performBackup_detached, performBackup, performBackup_try, performBackup_catch,
    route_catch, filename_of.
  confined_tac.
Qed.

Lemma startBackup_confined (env : Env) (o : Outcomes) (p : Params) (w : World) :
  let id := make_backupId p (w_clock w) in
  let s := startBackup env o p w in
  w_status (st_world s) = replay (w_status w) (st_log s) /\
  (forall id' e, In (EvSet id' e) (st_log s) -> id' = id) /\
  (forall path', path' <> filename_of o p -> w_files (st_world s) !! path' = w_files w !! path').
Proof.
  cbv zeta. destruct (startBackup_run env o p w) as (_ & Hw & Hl). rewrite Hw, Hl.
  destruct (performBackup_detached_confined env o (make_backupId p (w_clock w)) p
              (pending_world p w)) as (Hs & Hid & Hf).
  split; [|split].
  - rewrite Hs. reflexivity.
  - intros id' e [Heq|Hin]; [congruence | exact (Hid id' e Hin)].
  - intros path' Hp. rewrite Hf by exact Hp. reflexivity.
Qed.

(** a backup job writes only its own entry of [backupStatus] and
    touches no local file but its own archive: after the route and the
    whole detached job, every other id's entry and every other path are
    as before, and every write the job makes is to its own id. *)
Theorem backup_job_touches_only_its_own (env : Env) (o : Outcomes) (p : Params) (w : World) :
  let id := make_backupId p (w_clock w) in
  let s := startBackup env o p w in
  (forall id', id' <> id -> w_status (st_world s) !! id' = w_status w !! id') /\
  (forall path', path' <> filename_of o p -> w_files (st_world s) !! path' = w_files w !! path') /\
  (forall id' e, In (EvSet id' e) (st_log s) -> id' = id).
Proof.
  cbv zeta. destruct (startBackup_confined env o p w) as (Hs & Hid & Hf).
  split; [|split; assumption].
  intros id' Hne. rewrite Hs. apply (replay_other _ _ (make_backupId p (w_clock w))); assumption.
Qed.

(** from the route's Pending write on, the status route finds the
    job's id at every point of the job: replaying any non-empty prefix of
    the job's writes over the status map it started from, and the final
    map, all have an entry for the id, so [GET /api/backup/status/:id]
    never answers 404 for it. *)
Theorem status_found_throughout (env : Env) (o : Outcomes) (p : Params) (w : World)
    (k : nat) (tnow : N) :
  let id := make_backupId p (w_clock w) in
  let s := startBackup env o p w in
  (1 <= k)%nat ->
  getStatus (replay (w_status w) (firstn k (st_log s))) tnow id <> StatusNotFound /\
  getStatus (w_status (st_world s)) tnow id <> StatusNotFound.
Proof.
  cbv zeta. intros Hk.
  destruct (startBackup_run env o p w) as (_ & _ & Hl).
  destruct (startBackup_confined env o p w) as (Hs & _ & _).
  assert (Hpre : forall l, is_Some (replay (w_status w) (firstn k (st_log (startBackup env o p w)) ++ l)%list
                                     !! make_backupId p (w_clock w))).
  { intros l. rewrite Hl. destruct k as [|k]; [lia|]. cbn.
    apply replay_keeps. rewrite lookup_insert_eq. eauto. }
  unfold getStatus. split.
  - destruct (Hpre []) as [e He]. rewrite app_nil_r in He. rewrite He. discriminate.
  - rewrite Hs, <- (firstn_skipn k (st_log (startBackup env o p w))).
    destruct (Hpre (skipn k (st_log (startBackup env o p w)))) as [e He].
    rewrite He. discriminate.
Qed.

Lemma status_found_throughout_witness :
  (1 <= 2)%nat /\
  (getStatus (replay (w_status w_start) (firstn 2 (st_log run_nobucket))) 1500 acme_id
     <> StatusNotFound /\
   getStatus (w_status (st_world run_nobucket)) 1500 acme_id <> StatusNotFound).
Proof.
  split; [lia|].
  apply (status_found_throughout env_nobucket o_empty_export p_acme w_start 2 1500). lia.
Defined.


(** when the configuration is set and every collaborator succeeds (the
    Sanity client, the probe, the export, which leaves a file of some size,
    the upload, which resolves with an ETag, and the deletion), the route
    returns the job id and the job ends with the Completed entry naming the
    archive as [s3Location] with the upload's ETag, stamped when the upload
    finished; the local archive is deleted. *)
Theorem backup_success_completes (env : Env) (o : Outcomes) (p : Params) (w : World)
    (n : N) (tag : option string) :
  truthy (S3_BUCKET_NAME env) = true -> truthy (AWS_ACCESS_KEY_ID env) = true ->
  truthy (AWS_SECRET_ACCESS_KEY env) = true -> createClient_throws o = None ->
  fetch_result o = None -> export_result o = None -> export_file o = Some n ->
  upload_result o = Ok tag -> unlink_result o = None ->
  let id := make_backupId p (w_clock w) in
  let s := startBackup env o p w in
  st_res s = Ok id /\
  w_status (st_world s) !! id =
    Some {| status := Completed; message := "Backup completed successfully";
            progress := None; error := None; s3Location := Some (filename_of o p);
            etag := tag;
            startTime := w_clock w + fetch_delay o + export_delay o + upload_delay o |} /\
  w_files (st_world s) !! filename_of o p = None.
Proof. exact (startBackup_success env o p w n tag). Qed.

Lemma backup_success_completes_witness :
  export_file o_empty_export = Some 0%N /\ upload_result o_empty_export = Ok (Some "etag1") /\
  (st_res run_empty_export = Ok acme_id /\
   w_status (st_world run_empty_export) !! acme_id =
     Some {| status := Completed; message := "Backup completed successfully";
             progress := None; error := None;
             s3Location := Some (filename_of o_empty_export p_acme);
             etag := Some "etag1"; startTime := 1000 + 5 + 100 + 50 |} /\
   w_files (st_world run_empty_export) !! filename_of o_empty_export p_acme = None).
Proof.
  split; [reflexivity|]. split; [reflexivity|].
  apply (backup_success_completes env_ok o_empty_export p_acme w_start 0 (Some "etag1"));
    reflexivity.
Defined.


(** the client's status check, fed the status route's answer: for an
    id the server does not know (404, [status: 'ERROR']) or a Pending
    entry it updates nothing and schedules nothing, so polling stops; for
    Exporting or Uploading it checks again after 30 s; for Completed it
    records success with the entry's [s3Location] (or the empty string);
    for Failed it records an error with an empty location; after either
    update it checks again after 30 s only if the update rejects. *)
Theorem client_check_on_status (m : gmap string Entry) (tnow : N) (id : string)
    (update_rejects : bool) :
  checkBackupStatus (Some (getStatus m tnow id)) update_rejects =
    match m !! id with
    | None => (None, None)
    | Some e =>
        match status e with
        | Pending => (None, None)
        | Exporting | Uploading => (None, Some 30000%N)
        | Completed => (Some ("success", or_default (s3Location e) ""),
                        if update_rejects then Some 30000%N else None)
        | Failed => (Some ("error", ""), if update_rejects then Some 30000%N else None)
        end
    end.
Proof.
  unfold getStatus. destruct (m !! id) as [e|]; [|reflexivity].
  destruct (status e); reflexivity.
Qed.

Lemma make_backupId_truthy (p : Params) (t : N) : truthy (Some (make_backupId p t)) = true.
Proof.
  unfold truthy, make_backupId. destruct (projectId p); reflexivity.
Qed.

(** the web client's [handleCreateBackup]: when the [createBackup]
    mutation resolves and the client reads the backup route's answer, it
    schedules its first status check, 10 s later, for the id the route
    answers with (the id is never empty).  When the mutation rejects, or
    the fetch or [.json()] rejects, it schedules nothing and ends in its
    catch block; an answer is acted on only when its [status] is 'OK' and
    its [backupId] is truthy. *)
Theorem client_schedules_first_check (env : Env) (o : Outcomes) (p : Params) (w : World)
    (id : string) :
  st_res (startBackup env o p w) = Ok id ->
  handleCreateBackup true (backup_route_json id) = Some (id, 10000%N) /\
  (forall data, handleCreateBackup false data = None) /\
  handleCreateBackup true None = None /\
  (forall st bid, handleCreateBackup true (Some (st, bid)) <> None ->
     st = "OK" /\ truthy bid = true).
Proof.
  intros H. destruct (startBackup_run env o p w) as (Hr & _ & _).
  rewrite Hr in H. injection H as <-.
  split; [|split; [|split]].
  - unfold handleCreateBackup, backup_route_json.
    cbn [negb String.eqb andb]. rewrite make_backupId_truthy.
    unfold or_default. pose proof (make_backupId_truthy p (w_clock w)) as Ht.
    unfold truthy in Ht. destruct (String.eqb (make_backupId p (w_clock w)) ""); [discriminate|].
    reflexivity.
  - intros data. reflexivity.
  - reflexivity.
  - intros st bid. unfold handleCreateBackup. cbn [negb].
    destruct (String.eqb_spec st "OK"), (truthy bid); cbn [andb];
      solve [split; congruence | intros []; reflexivity].
Qed.

Lemma client_schedules_first_check_witness :
  st_res run_nobucket = Ok acme_id /\
  handleCreateBackup true (backup_route_json acme_id) = Some (acme_id, 10000%N) /\
  handleCreateBackup false (backup_route_json acme_id) = None.
Proof.
  destruct (client_schedules_first_check env_nobucket o_empty_export p_acme w_start acme_id)
    as (H1 & H2 & _); [vm_compute; reflexivity|].
  split; [vm_compute; reflexivity|]. split; [exact H1 | apply H2].
Defined.


Section Clears.
Context {A B : Type} (path : string).

Lemma clears_bind (m : M A) (k : A -> M B) :
  (forall a, clears path (k a)) -> clears path (m ≫= k).
Proof.
  intros Hk w b. rewrite bind_res, bind_world.
  destruct (st_res (m w)) as [a|e]; [apply Hk | discriminate].
Qed.

Lemma clears_then (m : M A) (k : A -> M B) :
  clears path m -> (forall a, keeps_files (k a)) -> clears path (m ≫= k).
Proof.
  intros Hm Hk w b. rewrite bind_res, bind_world.
  destruct (st_res (m w)) as [a|e] eqn:E; [|discriminate].
  intros _. rewrite Hk. exact (Hm w a E).
Qed.

Lemma keeps_files_bind (m : M A) (k : A -> M B) :
  keeps_files m -> (forall a, keeps_files (k a)) -> keeps_files (m ≫= k).
Proof.
  intros Hm Hk w. rewrite bind_world.
  destruct (st_res (m w)); [rewrite Hk|]; apply Hm.
Qed.

End Clears.

Lemma clears_unlinkSync (path : string) (f : option jerr) : clears path (unlinkSync path f).
Proof.
  intros w a. unfold unlinkSync.
  destruct (w_files w !! path), f; cbn; try discriminate.
  intros _. apply lookup_delete_eq.
Qed.

Lemma keeps_files_now : keeps_files now.
Proof. intros w. reflexivity. Qed.

Lemma keeps_files_set (id : string) (e : Entry) : keeps_files (set_status id e).
Proof. intros w. reflexivity. Qed.

(** A try block that returns normally has deleted the archive. *)
Lemma try_clears (env : Env) (o : Outcomes) (id : string) (p : Params) :
  clears (filename_of o p) (performBackup_try env o id p).
Proof.
  unfold performBackup_try. fold (filename_of o p). cbv zeta.
  repeat match goal with
    | |- clears _ (unlinkSync _ _ ≫= _) =>
        apply clears_then; [apply clears_unlinkSync | intros ?];
        apply keeps_files_bind; [apply keeps_files_now | intros ?]; apply keeps_files_set
    | |- clears _ (_ ≫= _) => apply clears_bind; intros ?
    end.
Qed.

(** when the catch block's own deletion succeeds, a backup job leaves
    no file at its archive path, whatever else fails (configuration,
    Sanity, export, upload or the first deletion): on success the archive
    is deleted after the upload, on failure the catch block deletes
    whatever file is at that path. *)
Theorem job_leaves_no_archive (env : Env) (o : Outcomes) (p : Params) (w : World) :
  cleanup_result o = None ->
  w_files (st_world (startBackup env o p w)) !! filename_of o p = None.
Proof.
  intros Hc.
  destruct (startBackup_run env o p w) as (_ & Hw & _). cbv zeta in Hw. rewrite Hw.
  remember (make_backupId p (w_clock w)) as id eqn:Hid. clear Hid.
  destruct (detached_world env o p id (pending_world p w)) as (Dw & _). rewrite Dw.
  unfold performBackup. rewrite catch_world.
  destruct (st_res (performBackup_try env o id p (pending_world p w))) as [a|e] eqn:E.
  - exact (try_clears env o id p _ a E).
  - destruct (catch_block_run o p id e (st_world (performBackup_try env o id p (pending_world p w))))
      as (_ & _ & _ & Hf).
    exact (Hf Hc).
Qed.

Lemma job_leaves_no_archive_witness :
  cleanup_result o_no_file = None /\
  w_files (st_world (startBackup env_ok o_no_file p_acme w_start)) !! filename_of o_no_file p_acme = None.
Proof. split; [reflexivity|]. apply job_leaves_no_archive. reflexivity. Defined.
